(** * coloursum: checksum-line recognition and digest formatting

    Shallow embedding of [src/base_line.rs], [src/ansi_coloured_line.rs],
    [src/ecoji_line.rs] and [src/onepassword_line.rs].

    A Rust [String] is a sequence of Unicode scalar values ([char]) stored as
    UTF-8; here a [char] is its code point (a [Z]) and a string is a
    [list char].  Byte offsets ([usize] results of [find]/[rfind], slice
    bounds) are measured on the UTF-8 encoding [str_bytes]. *)

From Stdlib Require Import Strings.String Strings.Ascii.
From Stdlib Require Import ZArith List Lia Bool.
Import Corelib.Init.Datatypes ListNotations.
Open Scope Z_scope.

Definition char := Z.
Definition rstring := list char.
Definition byte := Z.

(** ASCII literals, for readable test strings. *)
Fixpoint lit (s : String.string) : rstring :=
  match s with
  | String.EmptyString => []
  | String.String a s' => Z.of_nat (Ascii.nat_of_ascii a) :: lit s'
  end.

Definition ESC : char := 27.

(** ** UTF-8 (std's [char::encode_utf8]) *)

Definition utf8_encode (c : char) : list byte :=
  if c <? 128 then [c]
  else if c <? 2048 then
    [Z.lor 192 (Z.land (Z.shiftr c 6) 31);
     Z.lor 128 (Z.land c 63)]
  else if c <? 65536 then
    [Z.lor 224 (Z.land (Z.shiftr c 12) 15);
     Z.lor 128 (Z.land (Z.shiftr c 6) 63);
     Z.lor 128 (Z.land c 63)]
  else
    [Z.lor 240 (Z.land (Z.shiftr c 18) 7);
     Z.lor 128 (Z.land (Z.shiftr c 12) 63);
     Z.lor 128 (Z.land (Z.shiftr c 6) 63);
     Z.lor 128 (Z.land c 63)].

(** [str::as_bytes] *)
Definition str_bytes (s : rstring) : list byte := flat_map utf8_encode s.

(** [str::len], in bytes *)
Definition str_len (s : rstring) : nat := length (str_bytes s).

(** ** Substring search on the bytes ([str::find], [str::rfind] with a
    [&str] pattern): the least / greatest byte offset at which the
    needle's bytes occur. *)

Fixpoint is_prefix (needle hay : list byte) : bool :=
  match needle, hay with
  | [], _ => true
  | n :: ns, h :: hs => (n =? h) && is_prefix ns hs
  | _ :: _, [] => false
  end.

Fixpoint find_bytes (hay needle : list byte) : option nat :=
  if is_prefix needle hay then Some 0%nat
  else match hay with
       | [] => None
       | _ :: hs => option_map S (find_bytes hs needle)
       end.

Fixpoint rfind_bytes (hay needle : list byte) : option nat :=
  match hay with
  | [] => if is_prefix needle [] then Some 0%nat else None
  | _ :: hs =>
      match rfind_bytes hs needle with
      | Some j => Some (S j)
      | None => if is_prefix needle hay then Some 0%nat else None
      end
  end.

Definition str_find (s needle : rstring) : option nat :=
  find_bytes (str_bytes s) (str_bytes needle).

Definition str_rfind (s needle : rstring) : option nat :=
  rfind_bytes (str_bytes s) (str_bytes needle).

(** ** Byte-indexed slicing ([&s[a..b]], [&s[..b]], [&s[a..]]).
    Slicing panics unless both bounds are character boundaries with
    [a <= b <= len]; a panic is [None].  [split_at_byte s i] cuts [s] after
    the characters whose encodings fill exactly [i] bytes. *)

Fixpoint split_at_byte (s : rstring) (i : nat) : option (rstring * rstring) :=
  match i with
  | O => Some ([], s)
  | S _ =>
      match s with
      | [] => None
      | c :: s' =>
          let n := length (utf8_encode c) in
          if (n <=? i)%nat then
            match split_at_byte s' (i - n) with
            | Some (l, r) => Some (c :: l, r)
            | None => None
            end
          else None
      end
  end.

(** [&s[..b]] *)
Definition slice_to (s : rstring) (b : nat) : option rstring :=
  option_map fst (split_at_byte s b).

(** [&s[a..]] *)
Definition slice_from (s : rstring) (a : nat) : option rstring :=
  option_map snd (split_at_byte s a).

(** [&s[a..b]] *)
Definition slice (s : rstring) (a b : nat) : option rstring :=
  if (a <=? b)%nat then
    match split_at_byte s a with
    | Some (_, rest) => slice_to rest (b - a)
    | None => None
    end
  else None.

(** ** [base_line.rs]: [FormattableLine] *)

Record FormattableLine := {
  contents : rstring;
  formattable_start : option nat;
  formattable_end : option nat
}.

(** [find_bsd_tag_line] *)
Definition find_bsd_tag_line (line : rstring) : option nat :=
  let needle := lit " = "%string in
  option_map (fun offset => (offset + str_len needle)%nat) (str_rfind line needle).

(** [find_sum_prefixed_line] *)
Definition find_sum_prefixed_line (line : rstring) : option nat :=
  str_find line (lit "  "%string).

(** [impl From<String> for FormattableLine] *)
Definition FormattableLine_from (contents : rstring) : FormattableLine :=
  match find_bsd_tag_line contents with
  | Some suffix_start =>
      {| contents := contents; formattable_start := Some suffix_start;
         formattable_end := None |}
  | None =>
      match find_sum_prefixed_line contents with
      | Some prefix_end =>
          {| contents := contents; formattable_start := None;
             formattable_end := Some prefix_end |}
      | None =>
          {| contents := contents; formattable_start := None;
             formattable_end := None |}
      end
  end.

Example from_string_works :
  let s := lit "MD5 (./src/main.rs) = b7527e0e28c09f6f62dd2d4197d5d225"%string in
  FormattableLine_from s = {| contents := s; formattable_start := Some 22%nat;
                              formattable_end := None |}.
Proof. reflexivity. Qed.

Example find_sum_prefixed_line_works :
  find_sum_prefixed_line (lit "b7527e0e28c09f6f62dd2d4197d5d225  ./src/main.rs"%string)
  = Some 32%nat.
Proof. reflexivity. Qed.

(** ** [base_line.rs]: the [Line] trait and its provided [to_formatted].
    [format_hash] is the only method the formatter variants differ in;
    [to_formatted] yields [None] where one of its three slicing operations
    would panic. *)

Class Line (L : Type) := {
  format_hash : rstring -> rstring;
  get_line : L -> FormattableLine
}.

Definition unwrap_or {A} (o : option A) (d : A) : A :=
  match o with Some a => a | None => d end.

Definition is_none {A} (o : option A) : bool :=
  match o with Some _ => false | None => true end.

Definition to_formatted {L} `{Line L} (self : L) : option rstring :=
  let line := get_line self in
  if is_none (formattable_start line) && is_none (formattable_end line) then
    Some (contents line)
  else
    let slice_start := unwrap_or (formattable_start line) 0%nat in
    let slice_end := unwrap_or (formattable_end line) (str_len (contents line)) in
    match slice_to (contents line) slice_start,
          slice (contents line) slice_start slice_end,
          slice_from (contents line) slice_end with
    | Some a, Some m, Some b => Some (a ++ format_hash m ++ b)
    | _, _, _ => None
    end.

(** ** Library functions used by the formatters *)

(** [char::to_digit] *)
Definition to_digit (c : char) (radix : Z) : option Z :=
  let digit :=
    if (48 <=? c) && (c <=? 57) then Some (c - 48)
    else if (97 <=? c) && (c <=? 122) then Some (c - 97 + 10)
    else if (65 <=? c) && (c <=? 90) then Some (c - 65 + 10)
    else None in
  match digit with
  | Some d => if d <? radix then Some d else None
  | None => None
  end.

(** [u8::checked_mul], [u8::checked_add] *)
Definition u8_checked (r : Z) : option Z :=
  if (0 <=? r) && (r <=? 255) then Some r else None.

(** The digit loop of [from_str_radix] (unsigned, positive). *)
Fixpoint u8_digits (digits : list byte) (radix result : Z) : option Z :=
  match digits with
  | [] => Some result
  | c :: cs =>
      match to_digit c radix with
      | None => None
      | Some x =>
          match u8_checked (result * radix) with
          | None => None
          | Some r1 =>
              match u8_checked (r1 + x) with
              | None => None
              | Some r2 => u8_digits cs radix r2
              end
          end
      end
  end.

(** [u8::from_str_radix] on the bytes of its argument: empty input is an
    error, a leading [+] is skipped (a leading [-] is an invalid digit for an
    unsigned type), no digits after the sign is an error. *)
Definition u8_from_str_radix (src : list byte) (radix : Z) : option Z :=
  match src with
  | [] => None
  | first :: rest =>
      let digits := if first =? 43 then rest else src in
      match digits with
      | [] => None
      | _ => u8_digits digits radix 0
      end
  end.

(** [Itertools::chunks(2)] over [chars()]: consecutive pairs, the last
    one a single element when the length is odd. *)
Fixpoint chunks2 {A} (s : list A) : list (list A) :=
  match s with
  | [] => []
  | [a] => [[a]]
  | a :: b :: t => [a; b] :: chunks2 t
  end.

(** [u8]'s [Display]: at most three decimal digits. *)
Fixpoint dec_digits (fuel : nat) (n : Z) : rstring :=
  match fuel with
  | O => []
  | S f => if n <? 10 then [48 + n] else dec_digits f (n / 10) ++ [48 + n mod 10]
  end.

Definition u8_to_string (n : Z) : rstring := dec_digits 3 n.

(** [ansi_term]: [Fixed(n).paint(s).to_string()] is the 256-colour
    foreground prefix [ESC [38;5;nm], the text, then the reset [ESC [0m]. *)
Definition paint_fixed (n : Z) (s : rstring) : rstring :=
  ESC :: lit "[38;5;"%string ++ u8_to_string n ++ lit "m"%string ++ s
  ++ ESC :: lit "[0m"%string.

(** [collect()] of an iterator of [Result<String, _>] into
    [Result<String, _>]: concatenation, or the first error. *)
Fixpoint collect_string (xs : list (option rstring)) : option rstring :=
  match xs with
  | [] => Some []
  | None :: _ => None
  | Some s :: t =>
      match collect_string t with
      | Some r => Some (s ++ r)
      | None => None
      end
  end.

(** [collect()] into [Result<Vec<_>, _>]. *)
Fixpoint collect_vec {A} (xs : list (option A)) : option (list A) :=
  match xs with
  | [] => Some []
  | None :: _ => None
  | Some a :: t =>
      match collect_vec t with
      | Some r => Some (a :: r)
      | None => None
      end
  end.

(** ** [ansi_coloured_line.rs] *)

Record ANSIColouredLine := MkANSIColouredLine { ansi_inner : FormattableLine }.

Definition ANSIColouredLine_from (contents : rstring) : ANSIColouredLine :=
  MkANSIColouredLine (FormattableLine_from contents).

Definition ANSIColouredLine_format_hash (hash : rstring) : rstring :=
  let result :=
    collect_string
      (map (fun byte =>
              let ord_string := byte in
              option_map (fun ordinal => paint_fixed ordinal ord_string)
                         (u8_from_str_radix (str_bytes ord_string) 16))
           (chunks2 hash)) in
  unwrap_or result hash.

#[export] Instance ANSIColouredLine_Line : Line ANSIColouredLine := {
  format_hash := ANSIColouredLine_format_hash;
  get_line := ansi_inner
}.

(** ** [onepassword_line.rs] *)

Record OnePasswordLine := MkOnePasswordLine { onepassword_inner : FormattableLine }.

Definition OnePasswordLine_from (contents : rstring) : OnePasswordLine :=
  MkOnePasswordLine (FormattableLine_from contents).

(** [char::is_ascii_digit] *)
Definition is_ascii_digit (c : char) : bool := (48 <=? c) && (c <=? 57).

Definition OnePasswordLine_format_hash (hash : rstring) : rstring :=
  flat_map (fun character =>
              if is_ascii_digit character then paint_fixed 4 [character]
              else [character])
           hash.

#[export] Instance OnePasswordLine_Line : Line OnePasswordLine := {
  format_hash := OnePasswordLine_format_hash;
  get_line := onepassword_inner
}.

(** ** [ecoji_line.rs]

    The [ecoji] crate is a dependency, not part of this repository: its
    [encode_to_string] is a parameter of the development (an [Err] is
    [None]). *)

Record EcojiLine := MkEcojiLine { ecoji_inner : FormattableLine }.

Definition EcojiLine_from (contents : rstring) : EcojiLine :=
  MkEcojiLine (FormattableLine_from contents).

Section Ecoji.

Variable ecoji_encode_to_string : list byte -> option rstring.

Definition EcojiLine_format_hash (hash : rstring) : rstring :=
  let result :=
    collect_vec
      (map (fun byte =>
              let ord_string := byte in
              u8_from_str_radix (str_bytes ord_string) 16)
           (chunks2 hash)) in
  match result with
  | None => hash
  | Some bytes => unwrap_or (ecoji_encode_to_string bytes) hash
  end.

Definition EcojiLine_Line : Line EcojiLine := {|
  format_hash := EcojiLine_format_hash;
  get_line := ecoji_inner
|}.

End Ecoji.

(** Unit tests of the sources. *)

Example ansi_format_hash_works :
  ANSIColouredLine_format_hash (lit "b752"%string)
  = ESC :: lit "[38;5;183mb7"%string ++ ESC :: lit "[0m"%string
    ++ ESC :: lit "[38;5;82m52"%string ++ ESC :: lit "[0m"%string.
Proof. reflexivity. Qed.

Example ansi_format_hash_asdf :
  ANSIColouredLine_format_hash (lit "ASDF"%string) = lit "ASDF"%string.
Proof. reflexivity. Qed.

Example onepassword_format_hash_works :
  OnePasswordLine_format_hash (lit "b7e"%string)
  = lit "b"%string ++ ESC :: lit "[38;5;4m7"%string ++ ESC :: lit "[0me"%string.
Proof. reflexivity. Qed.

Example ansi_display_works :
  to_formatted (ANSIColouredLine_from (lit "MD5 (x) = 0e"%string))
  = Some (lit "MD5 (x) = "%string ++ ESC :: lit "[38;5;14m0e"%string
          ++ ESC :: lit "[0m"%string).
Proof. reflexivity. Qed.

Example ansi_format_hash_emoji :
  ANSIColouredLine_format_hash [128516] = [128516].
Proof. reflexivity. Qed.

(** ** Specification-side vocabulary *)

(** The needle's bytes occur at byte offset [o] of [hay]. *)
Definition occurs_at (hay needle : list byte) (o : nat) : Prop :=
  (o <= length hay)%nat /\ is_prefix needle (skipn o hay) = true.

Definition first_occurrence (hay needle : list byte) (o : nat) : Prop :=
  occurs_at hay needle o /\ forall o', occurs_at hay needle o' -> (o <= o')%nat.

Definition last_occurrence (hay needle : list byte) (o : nat) : Prop :=
  occurs_at hay needle o /\ forall o', occurs_at hay needle o' -> (o' <= o)%nat.

(** ** UTF-8 facts *)

Lemma lor_high (m y : Z) :
  0 <= m -> 0 <= y -> Z.testbit m 7 = true -> 128 <= Z.lor m y.
Proof.
  intros Hm Hy Hb.
  assert (Hn : 0 <= Z.lor m y) by (apply Z.lor_nonneg; auto).
  destruct (Z.lt_ge_cases (Z.lor m y) 128) as [Hlt|]; [|lia].
  exfalso.
  assert (Ht : Z.testbit (Z.lor m y) 7 = true) by (rewrite Z.lor_spec, Hb; reflexivity).
  destruct (Z.eq_dec (Z.lor m y) 0) as [E|E].
  - rewrite E in Ht. discriminate.
  - rewrite Z.bits_above_log2 in Ht; [discriminate|lia|].
    apply Z.log2_lt_pow2; [lia|]. exact Hlt.
Qed.

Lemma land_nonneg_r (a k : Z) : 0 <= k -> 0 <= Z.land a k.
Proof. intros. apply Z.land_nonneg. auto. Qed.

Lemma utf8_encode_ascii (c : char) : c < 128 -> utf8_encode c = [c].
Proof. intros H. unfold utf8_encode. replace (c <? 128) with true by lia. reflexivity. Qed.

Ltac high_byte := apply lor_high; [lia | apply land_nonneg_r; lia | reflexivity].

Lemma utf8_encode_high (c : char) :
  128 <= c ->
  utf8_encode c <> [] /\ Forall (fun b => 128 <= b) (utf8_encode c).
Proof.
  intros H. unfold utf8_encode.
  replace (c <? 128) with false by lia.
  destruct (c <? 2048); [|destruct (c <? 65536)];
    (split; [discriminate|]); repeat constructor; high_byte.
Qed.

Lemma utf8_encode_nonempty (c : char) : (1 <= length (utf8_encode c))%nat.
Proof.
  unfold utf8_encode.
  destruct (c <? 128); [|destruct (c <? 2048); [|destruct (c <? 65536)]];
    simpl; lia.
Qed.

Lemma str_bytes_app (l1 l2 : rstring) :
  str_bytes (l1 ++ l2) = str_bytes l1 ++ str_bytes l2.
Proof. unfold str_bytes. apply flat_map_app. Qed.

Lemma str_len_app (l1 l2 : rstring) :
  str_len (l1 ++ l2) = (str_len l1 + str_len l2)%nat.
Proof. unfold str_len. rewrite str_bytes_app. apply length_app. Qed.

Lemma str_len_cons (c : char) (s : rstring) :
  str_len (c :: s) = (length (utf8_encode c) + str_len s)%nat.
Proof. unfold str_len, str_bytes. simpl. apply length_app. Qed.

(** ** Search lemmas *)

Lemma occurs_at_cons_S (h : byte) (hs needle : list byte) (o : nat) :
  occurs_at (h :: hs) needle (S o) <-> occurs_at hs needle o.
Proof. unfold occurs_at. simpl. split; intros [? ?]; split; auto; lia. Qed.

Lemma occurs_at_0 (hay needle : list byte) :
  occurs_at hay needle 0 <-> is_prefix needle hay = true.
Proof. unfold occurs_at. simpl. split; [intros [_ H]; exact H | split; [lia|auto]]. Qed.

Lemma find_bytes_spec (hay needle : list byte) :
  match find_bytes hay needle with
  | Some o => first_occurrence hay needle o
  | None => forall o, ~ occurs_at hay needle o
  end.
Proof.
  induction hay as [|h hs IH]; simpl.
  - destruct (is_prefix needle []) eqn:E.
    + split; [apply occurs_at_0; exact E | intros; lia].
    + intros o [Hl Hp]. simpl in Hl. replace o with 0%nat in Hp by lia.
      simpl in Hp. congruence.
  - destruct (is_prefix needle (h :: hs)) eqn:E.
    + split; [apply occurs_at_0; exact E | intros; lia].
    + destruct (find_bytes hs needle) as [j|]; simpl.
      * destruct IH as [Hj Hmin]. split; [apply occurs_at_cons_S; exact Hj|].
        intros [|o'] Ho'.
        -- apply occurs_at_0 in Ho'. congruence.
        -- apply occurs_at_cons_S in Ho'. specialize (Hmin _ Ho'). lia.
      * intros [|o'] Ho'.
        -- apply occurs_at_0 in Ho'. congruence.
        -- apply occurs_at_cons_S in Ho'. exact (IH _ Ho').
Qed.

Lemma rfind_bytes_spec (hay needle : list byte) :
  match rfind_bytes hay needle with
  | Some o => last_occurrence hay needle o
  | None => forall o, ~ occurs_at hay needle o
  end.
Proof.
  induction hay as [|h hs IH]; simpl.
  - destruct (is_prefix needle []) eqn:E.
    + split; [apply occurs_at_0; exact E|]. intros o' [Hl _]. exact Hl.
    + intros o [Hl Hp]. simpl in Hl. replace o with 0%nat in Hp by lia.
      simpl in Hp. congruence.
  - destruct (rfind_bytes hs needle) as [j|].
    + destruct IH as [Hj Hmax]. split; [apply occurs_at_cons_S; exact Hj|].
      intros [|o'] Ho'; [lia|].
      apply occurs_at_cons_S in Ho'. specialize (Hmax _ Ho'). lia.
    + destruct (is_prefix needle (h :: hs)) eqn:E.
      * split; [apply occurs_at_0; exact E|].
        intros [|o'] Ho'; [lia|].
        apply occurs_at_cons_S in Ho'. destruct (IH _ Ho').
      * intros [|o'] Ho'.
        -- apply occurs_at_0 in Ho'. congruence.
        -- apply occurs_at_cons_S in Ho'. exact (IH _ Ho').
Qed.

Lemma last_occurrence_unique (hay needle : list byte) (o1 o2 : nat) :
  last_occurrence hay needle o1 -> last_occurrence hay needle o2 -> o1 = o2.
Proof. intros [H1 M1] [H2 M2]. specialize (M1 _ H2). specialize (M2 _ H1). lia. Qed.

Lemma first_occurrence_unique (hay needle : list byte) (o1 o2 : nat) :
  first_occurrence hay needle o1 -> first_occurrence hay needle o2 -> o1 = o2.
Proof. intros [H1 M1] [H2 M2]. specialize (M1 _ H2). specialize (M2 _ H1). lia. Qed.

Lemma bsd_needle_bytes : str_bytes (lit " = "%string) = [32; 61; 32].
Proof. reflexivity. Qed.

Lemma sum_needle_bytes : str_bytes (lit "  "%string) = [32; 32].
Proof. reflexivity. Qed.

(** ** Slicing lemmas *)

Lemma split_at_byte_0 (s : rstring) : split_at_byte s 0 = Some ([], s).
Proof. destruct s; reflexivity. Qed.

Lemma split_at_byte_app (l1 l2 : rstring) :
  split_at_byte (l1 ++ l2) (str_len l1) = Some (l1, l2).
Proof.
  induction l1 as [|c l1 IH]; [apply split_at_byte_0|].
  rewrite str_len_cons. simpl app.
  pose proof (utf8_encode_nonempty c) as Hn.
  destruct (length (utf8_encode c) + str_len l1)%nat as [|i] eqn:E; [lia|].
  cbn [split_at_byte]. rewrite <- E.
  replace (length (utf8_encode c) <=? length (utf8_encode c) + str_len l1)%nat
    with true by (symmetry; apply Nat.leb_le; lia).
  replace (length (utf8_encode c) + str_len l1 - length (utf8_encode c))%nat
    with (str_len l1) by lia.
  rewrite IH. reflexivity.
Qed.

Lemma split_at_byte_inv (s : rstring) (i : nat) (l r : rstring) :
  split_at_byte s i = Some (l, r) -> s = l ++ r /\ str_len l = i.
Proof.
  revert i l r. induction s as [|c s IH]; intros [|i] l r H;
    [rewrite split_at_byte_0 in H | simpl in H | rewrite split_at_byte_0 in H
    | cbn [split_at_byte] in H].
  - inversion H. subst. split; reflexivity.
  - discriminate.
  - inversion H. subst. split; reflexivity.
  - destruct (length (utf8_encode c) <=? S i)%nat eqn:Hle; [|discriminate].
    apply Nat.leb_le in Hle.
    destruct (split_at_byte s (S i - length (utf8_encode c))) as [[l' r']|] eqn:Hs;
      [|discriminate].
    inversion H. subst.
    destruct (IH _ _ _ Hs) as [-> Hlen].
    split; [reflexivity|]. rewrite str_len_cons. lia.
Qed.

Lemma slice_to_full (s : rstring) : slice_to s (str_len s) = Some s.
Proof.
  unfold slice_to. rewrite <- (app_nil_r s) at 1.
  rewrite split_at_byte_app. reflexivity.
Qed.

Lemma slice_from_full (s : rstring) : slice_from s (str_len s) = Some [].
Proof.
  unfold slice_from. rewrite <- (app_nil_r s) at 1.
  rewrite split_at_byte_app. reflexivity.
Qed.

(** The two non-trivial shapes of [to_formatted]. *)
Lemma to_formatted_suffix {L} `{Line L} (self : L) (s : nat) (pre suf : rstring) :
  formattable_start (get_line self) = Some s ->
  formattable_end (get_line self) = None ->
  slice_to (contents (get_line self)) s = Some pre ->
  slice_from (contents (get_line self)) s = Some suf ->
  to_formatted self = Some (pre ++ format_hash suf).
Proof.
  intros Hs He Hpre Hsuf. unfold to_formatted. rewrite Hs, He. simpl.
  rewrite Hpre.
  unfold slice_to, slice_from in Hpre, Hsuf.
  destruct (split_at_byte (contents (get_line self)) s) as [[l r]|] eqn:Hsp;
    [|discriminate].
  simpl in Hpre, Hsuf. inversion Hpre. inversion Hsuf. subst.
  destruct (split_at_byte_inv _ _ _ _ Hsp) as [Hc Hl]. subst s.
  unfold slice.
  assert (Hlen : str_len (contents (get_line self)) = (str_len pre + str_len suf)%nat)
    by (rewrite Hc, str_len_app; reflexivity).
  replace (str_len pre <=? str_len (contents (get_line self)))%nat with true
    by (symmetry; apply Nat.leb_le; lia).
  rewrite Hsp.
  replace (str_len (contents (get_line self)) - str_len pre)%nat with (str_len suf) by lia.
  rewrite slice_to_full.
  rewrite slice_from_full. rewrite app_nil_r. reflexivity.
Qed.

Lemma to_formatted_prefix {L} `{Line L} (self : L) (e : nat) (pre suf : rstring) :
  formattable_start (get_line self) = None ->
  formattable_end (get_line self) = Some e ->
  slice_to (contents (get_line self)) e = Some pre ->
  slice_from (contents (get_line self)) e = Some suf ->
  to_formatted self = Some (format_hash pre ++ suf).
Proof.
  intros Hs He Hpre Hsuf. unfold to_formatted. rewrite Hs, He. simpl.
  unfold slice, slice_to at 1. simpl. rewrite split_at_byte_0. simpl.
  rewrite Nat.sub_0_r, Hpre, Hsuf. reflexivity.
Qed.

(** ** ASCII needles sit on character boundaries *)

Definition ascii_bytes (bs : list byte) : Prop := Forall (fun b => 0 <= b < 128) bs.

Lemma str_bytes_cons (c : char) (s : rstring) :
  str_bytes (c :: s) = utf8_encode c ++ str_bytes s.
Proof. reflexivity. Qed.

Lemma ascii_prefix (needle : list byte) (s : rstring) :
  ascii_bytes needle ->
  is_prefix needle (str_bytes s) = true -> exists l2, s = needle ++ l2.
Proof.
  revert s. induction needle as [|n ns IH]; intros s Ha H; [exists s; reflexivity|].
  inversion Ha as [|? ? Hn Hns]; subst.
  destruct s as [|c s']; [discriminate|].
  rewrite str_bytes_cons in H.
  destruct (Z.lt_ge_cases c 128) as [Hc|Hc].
  - rewrite utf8_encode_ascii in H by exact Hc. simpl in H.
    apply andb_prop in H as [Heq Hp]. apply Z.eqb_eq in Heq. subst c.
    destruct (IH s' Hns Hp) as [l2 ->]. exists l2. reflexivity.
  - destruct (utf8_encode_high c Hc) as [Hne Hall].
    destruct (utf8_encode c) as [|b bs]; [congruence|].
    inversion Hall; subst. simpl in H.
    apply andb_prop in H as [Heq _]. apply Z.eqb_eq in Heq. lia.
Qed.

Lemma occurs_at_app_skip (e B needle : list byte) (o : nat) :
  (length e <= o)%nat -> occurs_at (e ++ B) needle o ->
  occurs_at B needle (o - length e).
Proof.
  intros Hle [Hl Hp]. rewrite length_app in Hl. split; [lia|].
  rewrite skipn_app, skipn_all2 in Hp by lia. exact Hp.
Qed.

Lemma occurs_at_inside_high (e B needle : list byte) (o : nat) :
  needle <> [] -> ascii_bytes needle -> Forall (fun b => 128 <= b) e ->
  (o < length e)%nat -> ~ occurs_at (e ++ B) needle o.
Proof.
  intros Hne Ha He Hlt [_ Hp].
  rewrite skipn_app in Hp.
  destruct (skipn o e) as [|b bs] eqn:Es.
  - pose proof (length_skipn o e) as L. rewrite Es in L. simpl in L. lia.
  - destruct needle as [|n ns]; [congruence|].
    inversion Ha; subst. simpl in Hp. apply andb_prop in Hp as [Heq _].
    apply Z.eqb_eq in Heq. subst n.
    assert (Hin : In b e).
    { rewrite <- (firstn_skipn o e), Es. apply in_or_app. right. left. reflexivity. }
    rewrite Forall_forall in He. specialize (He _ Hin). lia.
Qed.

Lemma occurs_split (s : rstring) (needle : list byte) (o : nat) :
  needle <> [] -> ascii_bytes needle ->
  occurs_at (str_bytes s) needle o ->
  exists l1 l2, s = l1 ++ needle ++ l2 /\ str_len l1 = o.
Proof.
  intros Hne Ha. revert o. induction s as [|c s IH]; intros o Ho.
  - destruct Ho as [Hl Hp]. simpl in Hl. replace o with 0%nat in Hp by lia.
    destruct needle; [congruence|discriminate].
  - destruct o as [|o'].
    + apply occurs_at_0 in Ho. destruct (ascii_prefix _ _ Ha Ho) as [l2 E].
      exists [], l2. split; [exact E|reflexivity].
    + rewrite str_bytes_cons in Ho.
      destruct (Z.lt_ge_cases c 128) as [Hc|Hc].
      * rewrite utf8_encode_ascii in Ho by exact Hc.
        apply occurs_at_cons_S in Ho.
        destruct (IH _ Ho) as [l1 [l2 [E L]]].
        exists (c :: l1), l2. split; [rewrite E; reflexivity|].
        rewrite str_len_cons, utf8_encode_ascii by exact Hc. simpl. lia.
      * destruct (utf8_encode_high c Hc) as [_ Hall].
        destruct (Nat.lt_ge_cases (S o') (length (utf8_encode c))) as [Hlt|Hge].
        -- exfalso. exact (occurs_at_inside_high _ _ _ _ Hne Ha Hall Hlt Ho).
        -- apply occurs_at_app_skip in Ho; [|exact Hge].
           destruct (IH _ Ho) as [l1 [l2 [E L]]].
           exists (c :: l1), l2. split; [rewrite E; reflexivity|].
           rewrite str_len_cons. lia.
Qed.

(** * Claims *)

(** C1: classification.  If the bytes of [" = "] occur in the line, the span
    starts 3 bytes after their last occurrence and runs to the end of the line
    (no end marker); otherwise, if two consecutive spaces occur, the span runs
    from the start of the line to their first occurrence; otherwise no span is
    set (pass-through). *)
Theorem classification_bsd_precedence (line : rstring) :
  let b := str_bytes line in
  let fl := FormattableLine_from line in
  (forall o, last_occurrence b [32; 61; 32] o ->
     formattable_start fl = Some (o + 3)%nat /\ formattable_end fl = None) /\
  ((forall o, ~ occurs_at b [32; 61; 32] o) ->
   forall o, first_occurrence b [32; 32] o ->
     formattable_start fl = None /\ formattable_end fl = Some o) /\
  ((forall o, ~ occurs_at b [32; 61; 32] o) ->
   (forall o, ~ occurs_at b [32; 32] o) ->
     formattable_start fl = None /\ formattable_end fl = None).
Proof.
  cbv zeta. unfold FormattableLine_from, find_bsd_tag_line, find_sum_prefixed_line,
    str_rfind, str_find.
  rewrite bsd_needle_bytes, sum_needle_bytes.
  pose proof (rfind_bytes_spec (str_bytes line) [32; 61; 32]) as HR.
  pose proof (find_bytes_spec (str_bytes line) [32; 32]) as HF.
  destruct (rfind_bytes (str_bytes line) [32; 61; 32]) as [r|] eqn:Er;
    [|destruct (find_bytes (str_bytes line) [32; 32]) as [f|] eqn:Ef]; simpl.
  - split; [|split].
    + intros o Ho. rewrite (last_occurrence_unique _ _ _ _ HR Ho). auto.
    + intros Hno. destruct (Hno r (proj1 HR)).
    + intros Hno. destruct (Hno r (proj1 HR)).
  - split; [|split].
    + intros o Ho. destruct (HR o (proj1 Ho)).
    + intros _ o Ho. rewrite (first_occurrence_unique _ _ _ _ HF Ho). auto.
    + intros _ Hno. destruct (Hno f (proj1 HF)).
  - split; [|split].
    + intros o Ho. destruct (HR o (proj1 Ho)).
    + intros _ o Ho. destruct (HF o (proj1 Ho)).
    + auto.
Qed.

(** C5: at most one of [formattable_start] and [formattable_end] is set in a
    [FormattableLine] built from any string. *)
Theorem formattable_line_at_most_one_marker (line : rstring) :
  formattable_start (FormattableLine_from line) = None \/
  formattable_end (FormattableLine_from line) = None.
Proof.
  unfold FormattableLine_from.
  destruct (find_bsd_tag_line line); [right; reflexivity|].
  destruct (find_sum_prefixed_line line); left; reflexivity.
Qed.

(** C4: the shared assembly contract of [to_formatted], for every formatter
    variant: no marker gives the contents verbatim; a start marker [s] gives
    [contents[..s] ++ format_hash(contents[s..])]; an end marker [e] gives
    [format_hash(contents[..e]) ++ contents[e..]]. *)
Theorem to_formatted_assembly_contract {L} `{Line L} (self : L) :
  let line := get_line self in
  (formattable_start line = None -> formattable_end line = None ->
     to_formatted self = Some (contents line)) /\
  (forall s pre suf,
     formattable_start line = Some s -> formattable_end line = None ->
     slice_to (contents line) s = Some pre -> slice_from (contents line) s = Some suf ->
     to_formatted self = Some (pre ++ format_hash suf)) /\
  (forall e pre suf,
     formattable_start line = None -> formattable_end line = Some e ->
     slice_to (contents line) e = Some pre -> slice_from (contents line) e = Some suf ->
     to_formatted self = Some (format_hash pre ++ suf)).
Proof.
  cbv zeta. split; [|split].
  - intros Hs He. unfold to_formatted. rewrite Hs, He. reflexivity.
  - intros s pre suf. apply to_formatted_suffix.
  - intros e pre suf. apply to_formatted_prefix.
Qed.

Ltac solve_ascii := repeat constructor; lia.

Lemma to_formatted_from_total {L} `{Line L} (self : L) (line : rstring) :
  get_line self = FormattableLine_from line -> exists out, to_formatted self = Some out.
Proof.
  intros Hg.
  unfold FormattableLine_from, find_bsd_tag_line, find_sum_prefixed_line,
    str_rfind, str_find in Hg.
  rewrite bsd_needle_bytes, sum_needle_bytes in Hg.
  pose proof (rfind_bytes_spec (str_bytes line) [32; 61; 32]) as HR.
  pose proof (find_bytes_spec (str_bytes line) [32; 32]) as HF.
  destruct (rfind_bytes (str_bytes line) [32; 61; 32]) as [r|] eqn:Er;
    [|destruct (find_bytes (str_bytes line) [32; 32]) as [f|] eqn:Ef]; simpl in Hg.
  - destruct (occurs_split line [32; 61; 32] r ltac:(discriminate) ltac:(solve_ascii)
                (proj1 HR)) as [l1 [l2 [E L1]]].
    assert (Hoff : (r + 3)%nat = str_len (l1 ++ [32; 61; 32]))
      by (rewrite str_len_app, L1; reflexivity).
    assert (E' : line = (l1 ++ [32; 61; 32]) ++ l2) by (rewrite <- app_assoc; exact E).
    eexists. apply (to_formatted_suffix self (r + 3) (l1 ++ [32; 61; 32]) l2);
      rewrite Hg; try reflexivity; simpl contents;
      unfold slice_to, slice_from; rewrite Hoff, E', split_at_byte_app; reflexivity.
  - destruct (occurs_split line [32; 32] f ltac:(discriminate) ltac:(solve_ascii)
                (proj1 HF)) as [l1 [l2 [E L1]]].
    eexists. apply (to_formatted_prefix self f l1 ([32; 32] ++ l2));
      rewrite Hg; try reflexivity; simpl contents;
      unfold slice_to, slice_from; rewrite <- L1, E, split_at_byte_app; reflexivity.
  - exists line. unfold to_formatted. rewrite Hg. reflexivity.
Qed.

(** C9: line assembly is total.  For every input string and every formatter
    variant (Ecoji with any encoder), the offsets found by classification are
    in-bounds character boundaries, so none of the slicing operations of
    [to_formatted] panics and an output string is always produced. *)
Theorem to_formatted_total (line : rstring) :
  (exists out, to_formatted (ANSIColouredLine_from line) = Some out) /\
  (exists out, to_formatted (OnePasswordLine_from line) = Some out) /\
  (forall enc, exists out,
     @to_formatted _ (EcojiLine_Line enc) (EcojiLine_from line) = Some out).
Proof.
  split; [|split; [|intros enc]]; eapply to_formatted_from_total; reflexivity.
Qed.

(** ** Parsing and collecting *)

Lemma u8_checked_range (r v : Z) : u8_checked r = Some v -> v = r /\ 0 <= v <= 255.
Proof.
  unfold u8_checked. destruct ((0 <=? r) && (r <=? 255)) eqn:E; [|discriminate].
  intros H; inversion H; subst. apply andb_prop in E as [E1 E2]. lia.
Qed.

Lemma u8_digits_range (ds : list byte) (radix res v : Z) :
  0 <= res <= 255 -> u8_digits ds radix res = Some v -> 0 <= v <= 255.
Proof.
  revert res. induction ds as [|c cs IH]; intros res Hr H; simpl in H.
  - inversion H; subst; exact Hr.
  - destruct (to_digit c radix); [|discriminate].
    destruct (u8_checked (res * radix)) as [r1|] eqn:E1; [|discriminate].
    destruct (u8_checked (r1 + z)) as [r2|] eqn:E2; [|discriminate].
    apply u8_checked_range in E2. apply (IH r2); [lia|exact H].
Qed.

Lemma u8_from_str_radix_range (src : list byte) (radix v : Z) :
  u8_from_str_radix src radix = Some v -> 0 <= v <= 255.
Proof.
  unfold u8_from_str_radix. destruct src as [|f rest]; [discriminate|].
  destruct (if f =? 43 then rest else f :: rest) as [|d ds]; [discriminate|].
  apply u8_digits_range. lia.
Qed.

Lemma collect_string_ok {A} (f : A -> option rstring) (g : A -> rstring) (l : list A) :
  Forall (fun a => f a = Some (g a)) l ->
  collect_string (map f l) = Some (concat (map g l)).
Proof.
  induction 1 as [|a l Ha _ IH]; [reflexivity|].
  simpl. rewrite Ha, IH. reflexivity.
Qed.

Lemma collect_string_none {A} (f : A -> option rstring) (l : list A) (a : A) :
  In a l -> f a = None -> collect_string (map f l) = None.
Proof.
  intros Hin Hf. induction l as [|b l IH]; [destruct Hin|].
  destruct Hin as [->|Hin]; simpl.
  - rewrite Hf. reflexivity.
  - destruct (f b); [|reflexivity]. rewrite (IH Hin). reflexivity.
Qed.

Lemma collect_vec_ok {A B} (f : A -> option B) (l : list A) (vs : list B) :
  Forall2 (fun a v => f a = Some v) l vs -> collect_vec (map f l) = Some vs.
Proof.
  induction 1 as [|a v l vs Ha _ IH]; [reflexivity|].
  simpl. rewrite Ha, IH. reflexivity.
Qed.

Lemma collect_vec_none {A B} (f : A -> option B) (l : list A) (a : A) :
  In a l -> f a = None -> collect_vec (map f l) = None.
Proof.
  intros Hin Hf. induction l as [|b l IH]; [destruct Hin|].
  destruct Hin as [->|Hin]; simpl.
  - rewrite Hf. reflexivity.
  - destruct (f b); [|reflexivity]. rewrite (IH Hin). reflexivity.
Qed.

(** The chunk parser of both byte-pair variants. *)
Definition parse_chunk (ord_string : rstring) : option Z :=
  u8_from_str_radix (str_bytes ord_string) 16.

(** C3 decoration: chunk [ch] with parsed value [v], in order. *)
Definition ansi_decorate (vs : list Z) (chunks : list rstring) : rstring :=
  concat (map (fun '(v, ch) => paint_fixed v ch) (combine vs chunks)).

Lemma ansi_collect_ok (chunks : list rstring) (vs : list Z) :
  Forall2 (fun ch v => parse_chunk ch = Some v) chunks vs ->
  collect_string
    (map (fun byte => option_map (fun ordinal => paint_fixed ordinal byte)
                                 (u8_from_str_radix (str_bytes byte) 16)) chunks)
  = Some (ansi_decorate vs chunks).
Proof.
  unfold ansi_decorate.
  induction 1 as [|ch v chunks vs Hv _ IH]; [reflexivity|].
  simpl. unfold parse_chunk in Hv. rewrite Hv. simpl.
  rewrite IH. reflexivity.
Qed.

Lemma concat_chunks2 {A} (s : list A) : concat (chunks2 s) = s.
Proof.
  assert (H : concat (chunks2 s) = s /\ forall a, concat (chunks2 (a :: s)) = a :: s).
  { induction s as [|b t [IH1 IH2]]; split; try reflexivity.
    - apply IH2.
    - intros a. simpl. rewrite IH1. reflexivity. }
  apply H.
Qed.

(** C3: ANSI-colour [format_hash].  The string is cut into consecutive
    2-character chunks; a chunk that parses has a value in 0..255; if every
    chunk parses, the result is each chunk wrapped in the 256-colour escape of
    its value and a reset, in order; if any chunk fails, the input is returned
    unchanged. *)
Theorem ansi_format_hash_all_or_nothing (hash : rstring) :
  concat (chunks2 hash) = hash /\
  (forall ch v, parse_chunk ch = Some v -> 0 <= v <= 255) /\
  (forall vs, Forall2 (fun ch v => parse_chunk ch = Some v) (chunks2 hash) vs ->
     ANSIColouredLine_format_hash hash = ansi_decorate vs (chunks2 hash)) /\
  ((exists ch, In ch (chunks2 hash) /\ parse_chunk ch = None) ->
     ANSIColouredLine_format_hash hash = hash).
Proof.
  split; [apply concat_chunks2|]. split; [|split].
  - intros ch v. apply u8_from_str_radix_range.
  - intros vs Hvs. unfold ANSIColouredLine_format_hash. cbv zeta.
    rewrite (ansi_collect_ok _ _ Hvs). reflexivity.
  - intros [ch [Hin Hn]]. unfold ANSIColouredLine_format_hash. cbv zeta.
    erewrite collect_string_none; [reflexivity|exact Hin|].
    unfold parse_chunk in Hn. rewrite Hn. reflexivity.
Qed.

(** C6: Ecoji [format_hash].  If every chunk parses, the parsed bytes (in
    order) go to the Ecoji encoder, whose output is returned, or the input
    unchanged when the encoder fails; if any chunk fails to parse, the input
    is returned unchanged. *)
Theorem ecoji_format_hash_fallbacks (enc : list byte -> option rstring) (hash : rstring) :
  (forall vs, Forall2 (fun ch v => parse_chunk ch = Some v) (chunks2 hash) vs ->
     (forall e, enc vs = Some e -> EcojiLine_format_hash enc hash = e) /\
     (enc vs = None -> EcojiLine_format_hash enc hash = hash)) /\
  ((exists ch, In ch (chunks2 hash) /\ parse_chunk ch = None) ->
     EcojiLine_format_hash enc hash = hash).
Proof.
  split.
  - intros vs Hvs. unfold EcojiLine_format_hash. cbv zeta.
    change (fun byte : rstring => u8_from_str_radix (str_bytes byte) 16) with parse_chunk.
    rewrite (collect_vec_ok parse_chunk _ _ Hvs).
    split; [intros e He | intros He]; rewrite He; reflexivity.
  - intros [ch [Hin Hn]]. unfold EcojiLine_format_hash. cbv zeta.
    change (fun byte : rstring => u8_from_str_radix (str_bytes byte) 16) with parse_chunk.
    rewrite (collect_vec_none parse_chunk _ _ Hin Hn). reflexivity.
Qed.

(** ** Hexadecimal digits *)

(** An ASCII hexadecimal digit [0-9a-fA-F]. *)
Definition is_hex_digit (c : char) : bool :=
  match to_digit c 16 with Some _ => true | None => false end.

Ltac zbool :=
  repeat (match goal with
          | H : context [?a <=? ?b] |- _ => destruct (Z.leb_spec a b)
          | |- context [?a <=? ?b] => destruct (Z.leb_spec a b)
          | H : context [?a <? ?b] |- _ => destruct (Z.ltb_spec a b)
          | |- context [?a <? ?b] => destruct (Z.ltb_spec a b)
          end; simpl in *).

Lemma hex_digit_facts (c : char) :
  is_hex_digit c = true ->
  0 <= c < 128 /\ c <> 43 /\ c <> ESC /\
  exists d, to_digit c 16 = Some d /\ 0 <= d < 16.
Proof.
  unfold is_hex_digit, to_digit, ESC. intros H.
  zbool; try discriminate;
    (split; [lia|split; [lia|split; [lia|]]]); eexists; (split; [reflexivity|lia]).
Qed.

Lemma u8_checked_ok (r : Z) : 0 <= r <= 255 -> u8_checked r = Some r.
Proof. intros H. unfold u8_checked. zbool; [reflexivity|lia..]. Qed.

Lemma hex_pair_parses (a b : char) :
  is_hex_digit a = true -> is_hex_digit b = true ->
  exists v, parse_chunk [a; b] = Some v.
Proof.
  intros Ha Hb.
  destruct (hex_digit_facts a Ha) as [Ra [Pa [_ [da [Da Rda]]]]].
  destruct (hex_digit_facts b Hb) as [Rb [_ [_ [db [Db Rdb]]]]].
  unfold parse_chunk, str_bytes. simpl flat_map.
  rewrite !utf8_encode_ascii by lia. simpl app.
  unfold u8_from_str_radix. destruct (Z.eqb_spec a 43); [lia|].
  simpl u8_digits.
  repeat first [rewrite Da | rewrite Db | rewrite u8_checked_ok by lia].
  eexists. reflexivity.
Qed.

Lemma hex_single_parses (c : char) :
  is_hex_digit c = true -> exists d, parse_chunk [c] = Some d /\ 0 <= d <= 15.
Proof.
  intros Hc. destruct (hex_digit_facts c Hc) as [Rc [Pc [_ [d [Dd Rd]]]]].
  unfold parse_chunk, str_bytes. simpl flat_map.
  rewrite utf8_encode_ascii by lia. simpl app.
  unfold u8_from_str_radix. destruct (Z.eqb_spec c 43); [lia|].
  simpl u8_digits.
  repeat first [rewrite Dd | rewrite u8_checked_ok by lia].
  exists d. split; [reflexivity|lia].
Qed.

Lemma chunks2_shape {A} (x : list A) (ch : list A) :
  In ch (chunks2 x) ->
  (exists a, ch = [a] /\ In a x) \/ (exists a b, ch = [a; b] /\ In a x /\ In b x).
Proof.
  revert ch.
  assert (H : (forall ch, In ch (chunks2 x) ->
                 (exists a, ch = [a] /\ In a x) \/
                 (exists a b, ch = [a; b] /\ In a x /\ In b x)) /\
              (forall c ch, In ch (chunks2 (c :: x)) ->
                 (exists a, ch = [a] /\ In a (c :: x)) \/
                 (exists a b, ch = [a; b] /\ In a (c :: x) /\ In b (c :: x)))).
  { induction x as [|b t [IH1 IH2]]; split.
    - intros ch [].
    - intros c ch [<-|[]]. left. exists c. split; [reflexivity|left; reflexivity].
    - apply IH2.
    - intros a ch [<-|Hin].
      + right. exists a, b. repeat split; simpl; auto.
      + destruct (IH1 ch Hin) as [[a' [E I]]|[a' [b' [E [I1 I2]]]]].
        * left. exists a'. simpl. auto.
        * right. exists a', b'. simpl. auto. }
  apply H.
Qed.

Lemma all_hex_chunks_parse (x : rstring) :
  forallb is_hex_digit x = true ->
  forall ch, In ch (chunks2 x) -> exists v, parse_chunk ch = Some v.
Proof.
  intros Hx ch Hin. rewrite forallb_forall in Hx.
  destruct (chunks2_shape x ch Hin) as [[a [-> Ia]]|[a [b [-> [Ia Ib]]]]].
  - destruct (hex_single_parses a (Hx a Ia)) as [d [Hd _]]. exists d. exact Hd.
  - exact (hex_pair_parses a b (Hx a Ia) (Hx b Ib)).
Qed.

Lemma exists_Forall2 {A B} (f : A -> option B) (l : list A) :
  (forall a, In a l -> exists v, f a = Some v) ->
  exists vs, Forall2 (fun a v => f a = Some v) l vs.
Proof.
  induction l as [|a l IH]; intros H; [exists []; constructor|].
  destruct (H a (or_introl eq_refl)) as [v Hv].
  destruct IH as [vs Hvs]; [intros a' Ia'; apply H; right; exact Ia'|].
  exists (v :: vs). constructor; assumption.
Qed.

Lemma odd_last_chunk {A} (x : list A) :
  Nat.odd (length x) = true -> exists c, last (chunks2 x) [] = [c] /\ In c x.
Proof.
  assert (H : (Nat.odd (length x) = true -> exists c, last (chunks2 x) [] = [c] /\ In c x) /\
              (forall a, Nat.odd (length (a :: x)) = true ->
                 exists c, last (chunks2 (a :: x)) [] = [c] /\ In c (a :: x))).
  { induction x as [|b t [IH1 IH2]]; split.
    - discriminate.
    - intros a _. exists a. split; [reflexivity|left; reflexivity].
    - apply IH2.
    - intros a Ho.
      assert (Ht : Nat.odd (length t) = true).
      { simpl length in Ho. rewrite Nat.odd_succ, Nat.even_succ in Ho. exact Ho. }
      destruct (IH1 Ht) as [c [Hl Hc]].
      exists c. split; [|right; right; exact Hc].
      change (chunks2 (a :: b :: t)) with ([a; b] :: chunks2 t).
      destruct t as [|t0 t']; [discriminate|].
      destruct (chunks2 (t0 :: t')) eqn:E.
      + destruct t' as [|? ?]; discriminate.
      + exact Hl. }
  apply H.
Qed.

Lemma u8_digits_bad (ds : list byte) (radix res : Z) (x : byte) :
  In x ds -> to_digit x radix = None -> u8_digits ds radix res = None.
Proof.
  revert res. induction ds as [|c cs IH]; intros res Hin Hx; [destruct Hin|].
  simpl. destruct Hin as [->|Hin].
  - rewrite Hx. reflexivity.
  - destruct (to_digit c radix); [|reflexivity].
    destruct (u8_checked (res * radix)); [|reflexivity].
    destruct (u8_checked (z0 + z)); [|reflexivity].
    apply IH; assumption.
Qed.

Lemma u8_from_str_radix_bad (src : list byte) (x : byte) :
  In x src -> to_digit x 16 = None -> x <> 43 -> u8_from_str_radix src 16 = None.
Proof.
  intros Hin Hx Hp. destruct src as [|f rest]; [reflexivity|].
  unfold u8_from_str_radix.
  assert (Hd : In x (if f =? 43 then rest else f :: rest)).
  { destruct (Z.eqb_spec f 43); [|exact Hin].
    destruct Hin as [<-|Hin]; [congruence|exact Hin]. }
  destruct (if f =? 43 then rest else f :: rest) as [|d ds]; [destruct Hd|].
  apply (u8_digits_bad _ _ _ x); assumption.
Qed.

Lemma to_digit_high (b : byte) : 128 <= b -> to_digit b 16 = None.
Proof. intros H. unfold to_digit. zbool; try reflexivity; lia. Qed.

Lemma chunk_with_bad_char_fails (ch : rstring) (c : char) :
  In c ch -> is_hex_digit c = false -> c <> 43 -> parse_chunk ch = None.
Proof.
  intros Hin Hh Hp. unfold parse_chunk.
  assert (Hsub : forall x, In x (utf8_encode c) -> In x (str_bytes ch)).
  { intros x Hx. unfold str_bytes. apply in_flat_map. exists c. auto. }
  destruct (Z.lt_ge_cases c 128) as [Hc|Hc].
  - apply (u8_from_str_radix_bad _ c); [|unfold is_hex_digit in Hh|exact Hp].
    + apply Hsub. rewrite utf8_encode_ascii by exact Hc. left. reflexivity.
    + destruct (to_digit c 16); [discriminate|reflexivity].
  - destruct (utf8_encode_high c Hc) as [Hne Hall].
    destruct (utf8_encode c) as [|b bs] eqn:E; [congruence|].
    inversion Hall; subst.
    apply (u8_from_str_radix_bad _ b).
    + apply Hsub. left. reflexivity.
    + apply to_digit_high. assumption.
    + lia.
Qed.

Lemma bad_char_gives_bad_chunk (x : rstring) (c : char) :
  In c x -> is_hex_digit c = false -> c <> 43 ->
  exists ch, In ch (chunks2 x) /\ parse_chunk ch = None.
Proof.
  intros Hin Hh Hp.
  assert (H : (In c x -> exists ch, In ch (chunks2 x) /\ In c ch) /\
              (forall a, In c (a :: x) -> exists ch, In ch (chunks2 (a :: x)) /\ In c ch)).
  { clear Hin. induction x as [|b t [IH1 IH2]]; split.
    - intros [].
    - intros a [->|[]]. exists [c]. split; left; reflexivity.
    - apply IH2.
    - intros a Ha. simpl chunks2.
      destruct Ha as [->|[->|Ht]].
      + exists [c; b]. split; left; reflexivity.
      + exists [a; c]. split; [left; reflexivity|right; left; reflexivity].
      + destruct (IH1 Ht) as [ch [I1 I2]]. exists ch. split; [right; exact I1|exact I2]. }
  destruct (proj1 H Hin) as [ch [I1 I2]].
  exists ch. split; [exact I1|]. exact (chunk_with_bad_char_fails ch c I2 Hh Hp).
Qed.

(** The spec's reading of "decomposable into valid 2-character hexadecimal
    byte chunks": even length, every character a hexadecimal digit. *)
Definition hex_pair_decomposable (x : rstring) : bool :=
  Nat.even (length x) && forallb is_hex_digit x.

Lemma odd_hex_no_fallback (enc : list byte -> option rstring) (x : rstring) :
  Nat.odd (length x) = true -> forallb is_hex_digit x = true ->
  (exists c d, last (chunks2 x) [] = [c] /\ parse_chunk [c] = Some d /\ 0 <= d <= 15) /\
  ANSIColouredLine_format_hash x <> x /\
  (exists vs, Forall2 (fun ch v => parse_chunk ch = Some v) (chunks2 x) vs /\
     EcojiLine_format_hash enc x = unwrap_or (enc vs) x).
Proof.
  intros Hodd Hhex. split.
  - destruct (odd_last_chunk x Hodd) as [c [Hl Hc]].
    rewrite forallb_forall in Hhex.
    destruct (hex_single_parses c (Hhex c Hc)) as [d [Hd Rd]].
    exists c, d. auto.
  - destruct (exists_Forall2 parse_chunk (chunks2 x) (all_hex_chunks_parse x Hhex))
      as [vs Hvs].
    split.
    + unfold ANSIColouredLine_format_hash. cbv zeta.
      rewrite (ansi_collect_ok _ _ Hvs). destruct x as [|a x']; [discriminate|].
      assert (Hna : a <> ESC).
      { simpl in Hhex. apply andb_prop in Hhex as [Hh _].
        apply (hex_digit_facts a Hh). }
      destruct (chunks2 (a :: x')) as [|ch0 cs] eqn:Ec.
      * destruct x' as [|? [|? ?]]; discriminate.
      * inversion Hvs as [|? v0 ? vs' Hv0 Hrest]; subst.
        unfold ansi_decorate. simpl. unfold paint_fixed. simpl.
        intros E. inversion E. congruence.
    + exists vs. split; [exact Hvs|].
      unfold EcojiLine_format_hash. cbv zeta.
      change (fun byte : rstring => u8_from_str_radix (str_bytes byte) 16) with parse_chunk.
      rewrite (collect_vec_ok parse_chunk _ _ Hvs). reflexivity.
Qed.

(** C2 (counterexample): the odd-length hexadecimal string ["abc"] is not
    decomposable into 2-character hexadecimal chunks, yet the ANSI-colour
    [format_hash] colours it instead of returning it unchanged (its last
    chunk ["c"] parses as 12). *)
Lemma fallback_idempotence_odd_counterexample :
  ~ (forall (enc : list byte -> option rstring) (x : rstring),
       hex_pair_decomposable x = false ->
       ANSIColouredLine_format_hash x = x /\ EcojiLine_format_hash enc x = x).
Proof.
  intros H.
  destruct (H (fun _ => None) (lit "abc"%string) eq_refl) as [Ha _].
  vm_compute in Ha. discriminate.
Qed.

(** C2 (amended): when some 2-character chunk (the last may be a single
    character) fails to parse as a base-16 byte, in particular when the
    string contains a character that is neither a hexadecimal digit nor
    [+] (every non-ASCII character), both the ANSI-colour and the Ecoji
    [format_hash] return the input unchanged.  The empty string is left
    unchanged by the ANSI-colour variant; the Ecoji variant hands the empty
    byte sequence to the encoder and so returns the empty string when the
    encoder maps no bytes to no text, as [ecoji::encode_to_string] does.
    Odd-length hexadecimal strings do not fall back: their last,
    one-character chunk parses as a value 0-15, the ANSI-colour output
    differs from the input, and the Ecoji variant hands the parsed bytes to
    the encoder. *)
Theorem format_hash_fallback_on_unparsable_chunk
    (enc : list byte -> option rstring) (x : rstring) :
  ((exists ch, In ch (chunks2 x) /\ parse_chunk ch = None) ->
     ANSIColouredLine_format_hash x = x /\ EcojiLine_format_hash enc x = x) /\
  ((exists c, In c x /\ is_hex_digit c = false /\ c <> 43) ->
     ANSIColouredLine_format_hash x = x /\ EcojiLine_format_hash enc x = x) /\
  ANSIColouredLine_format_hash [] = [] /\
  EcojiLine_format_hash enc [] = unwrap_or (enc []) [] /\
  (enc [] = Some [] -> EcojiLine_format_hash enc [] = []) /\
  (Nat.odd (length x) = true -> forallb is_hex_digit x = true ->
     (exists c d, last (chunks2 x) [] = [c] /\ parse_chunk [c] = Some d /\ 0 <= d <= 15) /\
     ANSIColouredLine_format_hash x <> x /\
     (exists vs, Forall2 (fun ch v => parse_chunk ch = Some v) (chunks2 x) vs /\
        EcojiLine_format_hash enc x = unwrap_or (enc vs) x)).
Proof.
  assert (Hbad : (exists ch, In ch (chunks2 x) /\ parse_chunk ch = None) ->
     ANSIColouredLine_format_hash x = x /\ EcojiLine_format_hash enc x = x).
  { intros [ch [Hin Hn]]. split.
    - unfold ANSIColouredLine_format_hash. cbv zeta.
      erewrite collect_string_none; [reflexivity|exact Hin|].
      unfold parse_chunk in Hn. rewrite Hn. reflexivity.
    - unfold EcojiLine_format_hash. cbv zeta.
      change (fun byte : rstring => u8_from_str_radix (str_bytes byte) 16) with parse_chunk.
      rewrite (collect_vec_none parse_chunk _ _ Hin Hn). reflexivity. }
  split; [exact Hbad|]. split.
  - intros [c [Hin [Hh Hp]]]. apply Hbad.
    exact (bad_char_gives_bad_chunk x c Hin Hh Hp).
  - split; [reflexivity|]. split; [reflexivity|]. split.
    + intros He. change (unwrap_or (enc []) [] = []). rewrite He. reflexivity.
    + apply odd_hex_no_fallback.
Qed.

(** C10: an odd-length string of hexadecimal digits is formatted, not passed
    through: its final one-character chunk parses as a value 0..15, every
    chunk parses, the ANSI-colour variant colours it (the output differs from
    the input), and the Ecoji variant hands the parsed bytes to the encoder. *)
Theorem odd_hex_string_is_formatted (x : rstring) :
  Nat.odd (length x) = true -> forallb is_hex_digit x = true ->
  (exists c d, last (chunks2 x) [] = [c] /\ parse_chunk [c] = Some d /\ 0 <= d <= 15) /\
  (exists vs, Forall2 (fun ch v => parse_chunk ch = Some v) (chunks2 x) vs /\
     ANSIColouredLine_format_hash x = ansi_decorate vs (chunks2 x) /\
     ANSIColouredLine_format_hash x <> x /\
     (forall enc, EcojiLine_format_hash enc x = unwrap_or (enc vs) x)).
Proof.
  intros Hodd Hhex. split.
  - destruct (odd_last_chunk x Hodd) as [c [Hl Hc]].
    rewrite forallb_forall in Hhex.
    destruct (hex_single_parses c (Hhex c Hc)) as [d [Hd Rd]].
    exists c, d. auto.
  - destruct (exists_Forall2 parse_chunk (chunks2 x) (all_hex_chunks_parse x Hhex))
      as [vs Hvs].
    assert (Ha : ANSIColouredLine_format_hash x = ansi_decorate vs (chunks2 x)).
    { unfold ANSIColouredLine_format_hash. cbv zeta.
      rewrite (ansi_collect_ok _ _ Hvs). reflexivity. }
    exists vs. split; [exact Hvs|]. split; [exact Ha|]. split.
    + rewrite Ha. destruct x as [|a x']; [discriminate|].
      assert (Hna : a <> ESC).
      { simpl in Hhex. apply andb_prop in Hhex as [Hh _].
        apply (hex_digit_facts a Hh). }
      destruct (chunks2 (a :: x')) as [|ch0 cs] eqn:Ec.
      * destruct x' as [|? [|? ?]]; discriminate.
      * inversion Hvs as [|? v0 ? vs' Hv0 Hrest]; subst.
        unfold ansi_decorate. simpl. unfold paint_fixed. simpl.
        intros E. inversion E. congruence.
    + intros enc. unfold EcojiLine_format_hash. cbv zeta.
      change (fun byte : rstring => u8_from_str_radix (str_bytes byte) 16) with parse_chunk.
      rewrite (collect_vec_ok parse_chunk _ _ Hvs). reflexivity.
Qed.

Lemma odd_hex_string_is_formatted_witness :
  Nat.odd (length (lit "abc"%string)) = true /\
  forallb is_hex_digit (lit "abc"%string) = true /\
  (exists c d, last (chunks2 (lit "abc"%string)) [] = [c] /\
     parse_chunk [c] = Some d /\ 0 <= d <= 15).
Proof.
  split; [reflexivity|]. split; [reflexivity|].
  apply (odd_hex_string_is_formatted (lit "abc"%string)); reflexivity.
Defined.

(** ** Digit highlighting: the per-character image of the spec *)

(** Spec, digit-highlight variant: an ASCII decimal digit is wrapped in the
    fixed-colour (palette index 4) escape and a reset; any other character is
    kept as it is. *)
Definition highlight_image (c : char) : rstring :=
  if (48 <=? c) && (c <=? 57)
  then ESC :: lit "[38;5;4m"%string ++ [c] ++ ESC :: lit "[0m"%string
  else [c].

(** C7: the digit-highlight [format_hash] is the in-order concatenation of the
    per-character images, digits highlighted and other characters untouched;
    it is total and works character by character (it distributes over
    concatenation). *)
Theorem onepassword_format_hash_per_character (hash : rstring) :
  OnePasswordLine_format_hash hash = concat (map highlight_image hash) /\
  (forall y z, OnePasswordLine_format_hash (y ++ z) =
               OnePasswordLine_format_hash y ++ OnePasswordLine_format_hash z).
Proof.
  split.
  - unfold OnePasswordLine_format_hash. rewrite flat_map_concat_map.
    apply (f_equal (@concat char)). apply map_ext. intros c.
    unfold highlight_image, is_ascii_digit.
    destruct ((48 <=? c) && (c <=? 57)); reflexivity.
  - intros y z. unfold OnePasswordLine_format_hash. apply flat_map_app.
Qed.

(** ** Removing terminal escape sequences

    A CSI sequence is [ESC [], parameter and intermediate bytes, and a final
    byte in 0x40..0x7E; [strip_escapes] deletes every such sequence and keeps
    everything else. *)

Inductive csi_state := Text | Escape | Csi.

Fixpoint strip_go (st : csi_state) (s : rstring) : rstring :=
  match s with
  | [] => match st with Escape => [ESC] | _ => [] end
  | c :: t =>
      match st with
      | Text => if c =? 27 then strip_go Escape t else c :: strip_go Text t
      | Escape =>
          if c =? 91 then strip_go Csi t
          else if c =? 27 then ESC :: strip_go Escape t
          else ESC :: c :: strip_go Text t
      | Csi => if (64 <=? c) && (c <=? 126) then strip_go Text t else strip_go Csi t
      end
  end.

Definition strip_escapes (s : rstring) : rstring := strip_go Text s.

Lemma strip_text_app (s r : rstring) :
  ~ In ESC s -> strip_go Text (s ++ r) = s ++ strip_go Text r.
Proof.
  induction s as [|c s IH]; intros Hn; [reflexivity|].
  simpl. destruct (Z.eqb_spec c 27) as [E|E].
  - exfalso. apply Hn. left. unfold ESC. congruence.
  - rewrite IH; [reflexivity|]. intros H. apply Hn. right. exact H.
Qed.

Lemma strip_csi_params (ds r : rstring) :
  Forall (fun c => 48 <= c <= 59) ds -> strip_go Csi (ds ++ r) = strip_go Csi r.
Proof.
  induction 1 as [|c ds Hc _ IH]; [reflexivity|].
  simpl. replace ((64 <=? c) && (c <=? 126)) with false by (zbool; first [reflexivity | lia]).
  exact IH.
Qed.

Lemma dec_digits_range (fuel : nat) (n : Z) :
  0 <= n -> Forall (fun c => 48 <= c <= 59) (dec_digits fuel n).
Proof.
  revert n. induction fuel as [|f IH]; intros n Hn; cbn [dec_digits]; [constructor|].
  destruct (Z.ltb_spec n 10).
  - constructor; [cbv beta; lia|constructor].
  - apply Forall_app. split.
    + apply IH. apply Z.div_pos; lia.
    + constructor; [|constructor]. cbv beta. pose proof (Z.mod_pos_bound n 10). lia.
Qed.

Lemma strip_paint (n : Z) (s r : rstring) :
  0 <= n -> ~ In ESC s ->
  strip_go Text (paint_fixed n s ++ r) = s ++ strip_go Text r.
Proof.
  intros Hn Hs. unfold paint_fixed. simpl.
  rewrite <- !app_assoc.
  rewrite strip_csi_params by (apply dec_digits_range; exact Hn).
  simpl. rewrite <- ?app_assoc. rewrite strip_text_app by exact Hs. reflexivity.
Qed.

Lemma strip_ansi_collect (cs : list rstring) (r : rstring) :
  ~ In ESC (concat cs) ->
  collect_string
    (map (fun byte => option_map (fun ordinal => paint_fixed ordinal byte)
                                 (u8_from_str_radix (str_bytes byte) 16)) cs) = Some r ->
  strip_go Text r = concat cs.
Proof.
  revert r. induction cs as [|ch cs IH]; intros r Hn H.
  - inversion H. reflexivity.
  - cbn [map collect_string concat] in H, Hn.
    destruct (u8_from_str_radix (str_bytes ch) 16) as [v|] eqn:Hv; [|discriminate].
    cbn [option_map] in H.
    destruct (collect_string _) as [r'|] eqn:Hr; [|discriminate].
    assert (Er : r = paint_fixed v ch ++ r') by (injection H; intros; subst; reflexivity).
    rewrite Er. rewrite strip_paint.
    + simpl. f_equal. apply IH; [|reflexivity].
      intros Hi. apply Hn. apply in_or_app. right. exact Hi.
    + apply (u8_from_str_radix_range _ _ _ Hv).
    + intros Hi. apply Hn. apply in_or_app. left. exact Hi.
Qed.

(** C8 (counterexample): for [x = ESC [m] both variants return [x]
    unchanged (its chunks do not parse as hexadecimal and it has no digit),
    and removing escape sequences then removes [x] entirely, so neither
    output yields [x] back. *)
Lemma decorate_only_escape_counterexample :
  ~ (forall x : rstring,
       strip_escapes (ANSIColouredLine_format_hash x) = x /\
       strip_escapes (OnePasswordLine_format_hash x) = x).
Proof.
  intros H. destruct (H [ESC; 91; 109]) as [Ha _].
  vm_compute in Ha. discriminate.
Qed.

(** C8 (amended): for every input with no ESC character, removing all
    escape sequences from the ANSI-colour or the digit-highlight
    [format_hash] output yields the input exactly. *)
Theorem format_hash_decorates_only (x : rstring) :
  ~ In ESC x ->
  strip_escapes (ANSIColouredLine_format_hash x) = x /\
  strip_escapes (OnePasswordLine_format_hash x) = x.
Proof.
  intros Hx. unfold strip_escapes. split.
  - unfold ANSIColouredLine_format_hash. cbv zeta.
    destruct (collect_string _) as [r|] eqn:Hr; simpl unwrap_or.
    + rewrite <- (concat_chunks2 x).
      apply strip_ansi_collect; [|exact Hr].
      rewrite concat_chunks2. exact Hx.
    + rewrite <- (app_nil_r x) at 1. rewrite strip_text_app by exact Hx.
      rewrite app_nil_r. reflexivity.
  - induction x as [|c x IH]; [reflexivity|].
    unfold OnePasswordLine_format_hash. simpl flat_map.
    assert (Hc : c <> ESC) by (intros E; apply Hx; left; exact E).
    assert (Hx' : ~ In ESC x) by (intros Hi; apply Hx; right; exact Hi).
    destruct (is_ascii_digit c) eqn:Hd.
    + rewrite strip_paint; [|lia|intros [E|[]]; congruence].
      simpl. f_equal. apply IH. exact Hx'.
    + simpl. unfold ESC in Hc. destruct (Z.eqb_spec c 27); [congruence|].
      f_equal. apply IH. exact Hx'.
Qed.

Lemma format_hash_decorates_only_witness :
  ~ In ESC (lit "b7"%string) /\
  strip_escapes (ANSIColouredLine_format_hash (lit "b7"%string)) = lit "b7"%string /\
  strip_escapes (OnePasswordLine_format_hash (lit "b7"%string)) = lit "b7"%string.
Proof.
  split; [simpl; unfold ESC; lia|].
  apply (format_hash_decorates_only (lit "b7"%string)). simpl; unfold ESC; lia.
Defined.

(** ** Witnesses at concrete inputs *)

Lemma classification_bsd_precedence_witness :
  last_occurrence (str_bytes (lit "MD5 (a = b) = de"%string)) [32; 61; 32] 11%nat /\
  formattable_start (FormattableLine_from (lit "MD5 (a = b) = de"%string)) = Some 14%nat.
Proof.
  assert (Hl : last_occurrence (str_bytes (lit "MD5 (a = b) = de"%string)) [32; 61; 32] 11%nat)
    by exact (rfind_bytes_spec (str_bytes (lit "MD5 (a = b) = de"%string)) [32; 61; 32]).
  split; [exact Hl|].
  exact (proj1 (proj1 (classification_bsd_precedence (lit "MD5 (a = b) = de"%string)) 11%nat Hl)).
Defined.

Lemma to_formatted_assembly_contract_witness :
  let self := ANSIColouredLine_from (lit "MD5 (x) = 0e"%string) in
  formattable_start (get_line self) = Some 10%nat /\
  formattable_end (get_line self) = None /\
  slice_to (contents (get_line self)) 10 = Some (lit "MD5 (x) = "%string) /\
  slice_from (contents (get_line self)) 10 = Some (lit "0e"%string) /\
  to_formatted self = Some (lit "MD5 (x) = "%string ++ ANSIColouredLine_format_hash (lit "0e"%string)).
Proof.
  cbv zeta.
  split; [reflexivity|]. split; [reflexivity|]. split; [reflexivity|]. split; [reflexivity|].
  apply (proj1 (proj2 (@to_formatted_assembly_contract _ ANSIColouredLine_Line
                         (ANSIColouredLine_from (lit "MD5 (x) = 0e"%string))))
           10%nat (lit "MD5 (x) = "%string) (lit "0e"%string)); reflexivity.
Defined.

Lemma ansi_format_hash_all_or_nothing_witness :
  Forall2 (fun ch v => parse_chunk ch = Some v) (chunks2 (lit "b752"%string)) [183; 82] /\
  ANSIColouredLine_format_hash (lit "b752"%string)
    = ansi_decorate [183; 82] (chunks2 (lit "b752"%string)) /\
  ANSIColouredLine_format_hash (lit "ASDF"%string) = lit "ASDF"%string.
Proof.
  assert (Hf : Forall2 (fun ch v => parse_chunk ch = Some v)
                 (chunks2 (lit "b752"%string)) [183; 82])
    by (repeat constructor).
  split; [exact Hf|]. split.
  - exact (proj1 (proj2 (proj2 (ansi_format_hash_all_or_nothing (lit "b752"%string))))
             [183; 82] Hf).
  - apply (proj2 (proj2 (proj2 (ansi_format_hash_all_or_nothing (lit "ASDF"%string))))).
    exists (lit "AS"%string). split; [left; reflexivity|reflexivity].
Defined.

Lemma ecoji_format_hash_fallbacks_witness :
  let enc := fun _ : list byte => Some (lit "E"%string) in
  Forall2 (fun ch v => parse_chunk ch = Some v) (chunks2 (lit "b7"%string)) [183] /\
  enc [183] = Some (lit "E"%string) /\
  EcojiLine_format_hash enc (lit "b7"%string) = lit "E"%string /\
  EcojiLine_format_hash enc (lit "x7"%string) = lit "x7"%string.
Proof.
  cbv zeta.
  assert (Hf : Forall2 (fun ch v => parse_chunk ch = Some v)
                 (chunks2 (lit "b7"%string)) [183])
    by (repeat constructor).
  split; [exact Hf|]. split; [reflexivity|]. split.
  - apply (proj1 (proj1 (ecoji_format_hash_fallbacks
                           (fun _ => Some (lit "E"%string)) (lit "b7"%string)) [183] Hf)).
    reflexivity.
  - apply (proj2 (ecoji_format_hash_fallbacks
                    (fun _ => Some (lit "E"%string)) (lit "x7"%string))).
    exists (lit "x7"%string). split; [left; reflexivity|reflexivity].
Defined.

Lemma format_hash_fallback_on_unparsable_chunk_witness :
  (In 83 (lit "ASDF"%string) /\ is_hex_digit 83 = false /\ 83 <> 43 /\
   ANSIColouredLine_format_hash (lit "ASDF"%string) = lit "ASDF"%string /\
   EcojiLine_format_hash (fun _ => None) (lit "ASDF"%string) = lit "ASDF"%string) /\
  (let enc := fun bs : list byte => match bs with [] => Some [] | _ => None end in
   enc [] = Some [] /\ EcojiLine_format_hash enc [] = [] /\
   Nat.odd (length (lit "abc"%string)) = true /\
   forallb is_hex_digit (lit "abc"%string) = true /\
   ANSIColouredLine_format_hash (lit "abc"%string) <> lit "abc"%string /\
   (exists vs, Forall2 (fun ch v => parse_chunk ch = Some v) (chunks2 (lit "abc"%string)) vs /\
      EcojiLine_format_hash enc (lit "abc"%string) = unwrap_or (enc vs) (lit "abc"%string))).
Proof.
  split.
  - split; [right; left; reflexivity|]. split; [reflexivity|]. split; [lia|].
    apply (proj1 (proj2 (format_hash_fallback_on_unparsable_chunk
                           (fun _ => None) (lit "ASDF"%string)))).
    exists 83. split; [right; left; reflexivity|]. split; [reflexivity|lia].
  - intros enc.
    pose proof (proj2 (proj2 (proj2 (proj2
                  (format_hash_fallback_on_unparsable_chunk enc (lit "abc"%string))))))
      as H.
    split; [reflexivity|]. split; [apply (proj1 H); reflexivity|].
    split; [reflexivity|]. split; [reflexivity|].
    destruct (proj2 H eq_refl eq_refl) as [_ [Ha He]].
    split; [exact Ha|exact He].
Defined.

(** * Further properties of the code *)

(** ** Shape of the classified line *)

Lemma is_prefix_length (n l : list byte) : is_prefix n l = true -> (length n <= length l)%nat.
Proof.
  revert l. induction n as [|a n IH]; intros [|b l] H; simpl in *; try lia; try discriminate.
  apply andb_prop in H as [_ H]. specialize (IH l H). lia.
Qed.

Lemma is_prefix_app (n l m : list byte) : is_prefix n l = true -> is_prefix n (l ++ m) = true.
Proof.
  revert l. induction n as [|a n IH]; intros [|b l] H; simpl in *; try reflexivity; try discriminate.
  apply andb_prop in H as [H1 H2]. rewrite H1, (IH l H2). reflexivity.
Qed.

Lemma occurs_at_shift (A B needle : list byte) (k : nat) :
  occurs_at B needle k -> occurs_at (A ++ B) needle (length A + k).
Proof.
  intros [Hl Hp]. split; [rewrite length_app; lia|].
  rewrite skipn_app, skipn_all2 by lia. simpl.
  replace (length A + k - length A)%nat with k by lia. exact Hp.
Qed.

Lemma occurs_at_extend (A B needle : list byte) (k : nat) :
  occurs_at A needle k -> occurs_at (A ++ B) needle k.
Proof.
  intros [Hl Hp]. split; [rewrite length_app; lia|].
  rewrite skipn_app. apply is_prefix_app. exact Hp.
Qed.

Lemma FormattableLine_from_contents (line : rstring) :
  contents (FormattableLine_from line) = line.
Proof.
  unfold FormattableLine_from.
  destruct (find_bsd_tag_line line); [|destruct (find_sum_prefixed_line line)]; reflexivity.
Qed.

Lemma from_suffix_shape (line : rstring) (s : nat) :
  formattable_start (FormattableLine_from line) = Some s ->
  formattable_end (FormattableLine_from line) = None /\
  exists l1 l2, line = (l1 ++ [32; 61; 32]) ++ l2 /\ s = str_len (l1 ++ [32; 61; 32]) /\
    last_occurrence (str_bytes line) [32; 61; 32] (str_len l1).
Proof.
  unfold FormattableLine_from, find_bsd_tag_line, find_sum_prefixed_line,
    str_rfind, str_find.
  rewrite bsd_needle_bytes.
  pose proof (rfind_bytes_spec (str_bytes line) [32; 61; 32]) as HR.
  destruct (rfind_bytes (str_bytes line) [32; 61; 32]) as [r|];
    [|destruct (find_bytes (str_bytes line) (str_bytes (lit "  "%string))); discriminate].
  simpl. intros Hs. inversion Hs; subst. split; [reflexivity|].
  destruct (occurs_split line [32; 61; 32] r ltac:(discriminate) ltac:(solve_ascii)
              (proj1 HR)) as [l1 [l2 [E L1]]].
  exists l1, l2. split; [rewrite <- app_assoc; exact E|].
  split; [rewrite str_len_app, L1; reflexivity|]. rewrite L1. exact HR.
Qed.

Lemma from_prefix_shape (line : rstring) (e : nat) :
  formattable_end (FormattableLine_from line) = Some e ->
  formattable_start (FormattableLine_from line) = None /\
  (forall o, ~ occurs_at (str_bytes line) [32; 61; 32] o) /\
  exists l1 l2, line = l1 ++ [32; 32] ++ l2 /\ e = str_len l1 /\
    first_occurrence (str_bytes line) [32; 32] e.
Proof.
  unfold FormattableLine_from, find_bsd_tag_line, find_sum_prefixed_line,
    str_rfind, str_find.
  rewrite bsd_needle_bytes, sum_needle_bytes.
  pose proof (rfind_bytes_spec (str_bytes line) [32; 61; 32]) as HR.
  pose proof (find_bytes_spec (str_bytes line) [32; 32]) as HF.
  destruct (rfind_bytes (str_bytes line) [32; 61; 32]) as [r|]; [discriminate|].
  destruct (find_bytes (str_bytes line) [32; 32]) as [f|]; [|discriminate].
  simpl. intros He. inversion He; subst. split; [reflexivity|]. split; [exact HR|].
  destruct (occurs_split line [32; 32] e ltac:(discriminate) ltac:(solve_ascii)
              (proj1 HF)) as [l1 [l2 [E L1]]].
  exists l1, l2. auto.
Qed.

(** [to_formatted] on a line built by [from]: the contents split into an
    untouched prefix, the span given to [format_hash], and an untouched
    suffix, one of the two untouched parts being empty. *)
Lemma to_formatted_from_shape {L} `{Line L} (self : L) (line : rstring) :
  get_line self = FormattableLine_from line ->
  (formattable_start (get_line self) = None /\ formattable_end (get_line self) = None /\
   to_formatted self = Some line) \/
  (exists pre span post, line = pre ++ span ++ post /\ (pre = [] \/ post = []) /\
     to_formatted self = Some (pre ++ format_hash span ++ post)).
Proof.
  intros Hg.
  destruct (formattable_start (FormattableLine_from line)) as [s|] eqn:Hs.
  - destruct (from_suffix_shape line s Hs) as [He [l1 [l2 [E [Hoff _]]]]].
    right. exists (l1 ++ [32; 61; 32]), l2, []. split; [rewrite app_nil_r; exact E|].
    split; [right; reflexivity|]. rewrite app_nil_r.
    pose proof (FormattableLine_from_contents line) as Hc.
    apply (to_formatted_suffix self s); rewrite Hg; try assumption; rewrite Hc;
      unfold slice_to, slice_from; rewrite Hoff, E, split_at_byte_app; reflexivity.
  - destruct (formattable_end (FormattableLine_from line)) as [e|] eqn:He.
    + destruct (from_prefix_shape line e He) as [_ [_ [l1 [l2 [E [Hoff _]]]]]].
      right. exists [], l1, ([32; 32] ++ l2). split; [exact E|].
      split; [left; reflexivity|].
      pose proof (FormattableLine_from_contents line) as Hc.
      apply (to_formatted_prefix self e); rewrite Hg; try assumption; rewrite Hc;
        unfold slice_to, slice_from; rewrite Hoff, E, split_at_byte_app; reflexivity.
    + left. rewrite Hg. split; [exact Hs|]. split; [exact He|].
      unfold to_formatted. rewrite Hg, Hs, He, FormattableLine_from_contents. reflexivity.
Qed.

(** X1: on a BSD-tag line the digest span starts right after a [" = "],
    and the span itself contains no [" = "]. *)
Theorem bsd_span_after_last_separator (line : rstring) (s : nat) :
  formattable_start (FormattableLine_from line) = Some s ->
  exists pre suf, line = pre ++ suf /\ str_len pre = s /\
    (exists p, pre = p ++ lit " = "%string) /\
    forall o, ~ occurs_at (str_bytes suf) [32; 61; 32] o.
Proof.
  intros Hs. destruct (from_suffix_shape line s Hs) as [_ [l1 [l2 [E [Hoff [Hocc Hlast]]]]]].
  exists (l1 ++ [32; 61; 32]), l2. split; [exact E|]. split; [symmetry; exact Hoff|].
  split; [exists l1; reflexivity|].
  intros o Ho.
  assert (Hb : str_bytes line = str_bytes (l1 ++ [32; 61; 32]) ++ str_bytes l2)
    by (rewrite E; apply str_bytes_app).
  pose proof (occurs_at_shift (str_bytes (l1 ++ [32; 61; 32])) _ _ _ Ho) as Hw.
  rewrite <- Hb in Hw. specialize (Hlast _ Hw).
  unfold str_len in Hlast. rewrite str_bytes_app, length_app in Hlast.
  simpl in Hlast. lia.
Qed.

(** X2: on a GNU-style line the digest span is followed by two spaces,
    contains no two consecutive spaces, and the line has no [" = "]. *)
Theorem sum_span_before_first_double_space (line : rstring) (e : nat) :
  formattable_end (FormattableLine_from line) = Some e ->
  (forall o, ~ occurs_at (str_bytes line) [32; 61; 32] o) /\
  exists pre post, line = pre ++ lit "  "%string ++ post /\ str_len pre = e /\
    forall o, ~ occurs_at (str_bytes pre) [32; 32] o.
Proof.
  intros He. destruct (from_prefix_shape line e He) as [_ [Hno [l1 [l2 [E [Hoff [_ Hfirst]]]]]]].
  split; [exact Hno|].
  exists l1, l2. split; [exact E|]. split; [symmetry; exact Hoff|].
  intros o Ho.
  assert (Hb : str_bytes line = str_bytes l1 ++ str_bytes ([32; 32] ++ l2))
    by (rewrite E; apply str_bytes_app).
  pose proof (occurs_at_extend _ (str_bytes ([32; 32] ++ l2)) _ _ Ho) as Hw.
  rewrite <- Hb in Hw. specialize (Hfirst _ Hw).
  destruct Ho as [_ Hp]. apply is_prefix_length in Hp.
  rewrite length_skipn in Hp. unfold str_len in Hoff. simpl in Hp. lia.
Qed.

(** X3: for every formatter, the output of [to_formatted] on a line built by
    [from] keeps the text outside the digest span verbatim and replaces the
    span by [format_hash] of it; a line with no span is returned unchanged. *)
Theorem to_formatted_replaces_span {L} `{Line L} (self : L) (line : rstring) :
  get_line self = FormattableLine_from line ->
  to_formatted self = Some line \/
  exists pre span post, line = pre ++ span ++ post /\ (pre = [] \/ post = []) /\
    to_formatted self = Some (pre ++ format_hash span ++ post).
Proof.
  intros Hg. destruct (to_formatted_from_shape self line Hg) as [[_ [_ Ho]]|Ho].
  - left. exact Ho.
  - right. exact Ho.
Qed.

(** ** Removing escape sequences from whole formatted lines *)

Lemma strip_ansi_collect_app (cs : list rstring) (r rest : rstring) :
  ~ In ESC (concat cs) ->
  collect_string
    (map (fun byte => option_map (fun ordinal => paint_fixed ordinal byte)
                                 (u8_from_str_radix (str_bytes byte) 16)) cs) = Some r ->
  strip_go Text (r ++ rest) = concat cs ++ strip_go Text rest.
Proof.
  revert r. induction cs as [|ch cs IH]; intros r Hn H.
  - inversion H. reflexivity.
  - cbn [map collect_string concat] in H, Hn.
    destruct (u8_from_str_radix (str_bytes ch) 16) as [v|] eqn:Hv; [|discriminate].
    cbn [option_map] in H.
    destruct (collect_string _) as [r'|] eqn:Hr; [|discriminate].
    assert (Er : r = paint_fixed v ch ++ r') by (injection H; intros; subst; reflexivity).
    rewrite Er, <- app_assoc. rewrite strip_paint.
    + cbn [concat]. rewrite <- app_assoc. f_equal. apply IH; [|reflexivity].
      intros Hi. apply Hn. apply in_or_app. right. exact Hi.
    + apply (u8_from_str_radix_range _ _ _ Hv).
    + intros Hi. apply Hn. apply in_or_app. left. exact Hi.
Qed.

Lemma strip_ansi_app (x rest : rstring) :
  ~ In ESC x ->
  strip_go Text (ANSIColouredLine_format_hash x ++ rest) = x ++ strip_go Text rest.
Proof.
  intros Hx. unfold ANSIColouredLine_format_hash. cbv zeta.
  destruct (collect_string _) as [r|] eqn:Hr; simpl unwrap_or.
  - rewrite <- (concat_chunks2 x).
    apply strip_ansi_collect_app; [|exact Hr].
    rewrite concat_chunks2. exact Hx.
  - apply strip_text_app. exact Hx.
Qed.

Lemma strip_onepassword_app (x rest : rstring) :
  ~ In ESC x ->
  strip_go Text (OnePasswordLine_format_hash x ++ rest) = x ++ strip_go Text rest.
Proof.
  induction x as [|c x IH]; intros Hx; [reflexivity|].
  unfold OnePasswordLine_format_hash. simpl flat_map.
  assert (Hc : c <> ESC) by (intros E; apply Hx; left; exact E).
  assert (Hx' : ~ In ESC x) by (intros Hi; apply Hx; right; exact Hi).
  rewrite <- app_assoc.
  destruct (is_ascii_digit c) eqn:Hd.
  - rewrite strip_paint; [|lia|intros [E|[]]; congruence].
    simpl. f_equal. apply IH. exact Hx'.
  - simpl. unfold ESC in Hc. destruct (Z.eqb_spec c 27); [congruence|].
    f_equal. apply IH. exact Hx'.
Qed.

(** A formatter whose [format_hash] only inserts escape sequences gives whole
    formatted lines that strip back to the line. *)
Lemma strip_to_formatted_app {L} `{Line L} (self : L) (line rest : rstring) :
  (forall x r, ~ In ESC x -> strip_go Text (format_hash x ++ r) = x ++ strip_go Text r) ->
  get_line self = FormattableLine_from line -> ~ In ESC line ->
  exists out, to_formatted self = Some out /\
    strip_go Text (out ++ rest) = line ++ strip_go Text rest.
Proof.
  intros Hf Hg Hn.
  destruct (to_formatted_from_shape self line Hg) as [[_ [_ Ho]]|[pre [span [post [E [_ Ho]]]]]];
    eexists; (split; [exact Ho|]).
  - apply strip_text_app. exact Hn.
  - rewrite E in Hn |- *.
    assert (Hp : ~ In ESC pre) by (intros Hi; apply Hn; apply in_or_app; left; exact Hi).
    assert (Hs : ~ In ESC span)
      by (intros Hi; apply Hn; apply in_or_app; right; apply in_or_app; left; exact Hi).
    assert (Hq : ~ In ESC post)
      by (intros Hi; apply Hn; apply in_or_app; right; apply in_or_app; right; exact Hi).
    rewrite <- !app_assoc. rewrite strip_text_app by exact Hp. f_equal.
    rewrite Hf by exact Hs. f_equal. apply strip_text_app. exact Hq.
Qed.

(** X4: on a whole line with no ESC character, the ANSI-colour and the
    digit-highlight formatters succeed, and removing the escape sequences
    from their output yields the line. *)
Theorem formatted_line_strips_to_line (line : rstring) :
  ~ In ESC line ->
  (exists out, to_formatted (ANSIColouredLine_from line) = Some out /\
     strip_escapes out = line) /\
  (exists out, to_formatted (OnePasswordLine_from line) = Some out /\
     strip_escapes out = line).
Proof.
  intros Hn. unfold strip_escapes. split.
  - destruct (@strip_to_formatted_app _ ANSIColouredLine_Line (ANSIColouredLine_from line) line []
                strip_ansi_app eq_refl Hn) as [out [Ho Hs]].
    exists out. split; [exact Ho|]. rewrite <- (app_nil_r out), Hs, app_nil_r. reflexivity.
  - destruct (@strip_to_formatted_app _ OnePasswordLine_Line (OnePasswordLine_from line) line []
                strip_onepassword_app eq_refl Hn) as [out [Ho Hs]].
    exists out. split; [exact Ho|]. rewrite <- (app_nil_r out), Hs, app_nil_r. reflexivity.
Qed.

(** ** Values of parsed chunks *)

Lemma to_digit_hex_facts (c d : char) :
  to_digit c 16 = Some d -> 0 <= c < 128 /\ c <> 43 /\ c <> 45 /\ 0 <= d < 16.
Proof. unfold to_digit. intros H. zbool; try discriminate; inversion H; subst; lia. Qed.

Lemma parse_hex_pair (a b da db : char) :
  to_digit a 16 = Some da -> to_digit b 16 = Some db ->
  parse_chunk [a; b] = Some (da * 16 + db) /\ parse_chunk [a] = Some da.
Proof.
  intros Da Db.
  destruct (to_digit_hex_facts a da Da) as [Ra [Pa [_ Rda]]].
  destruct (to_digit_hex_facts b db Db) as [Rb [_ [_ Rdb]]].
  unfold parse_chunk, str_bytes. simpl flat_map.
  rewrite !utf8_encode_ascii by lia. simpl app.
  unfold u8_from_str_radix. destruct (Z.eqb_spec a 43); [lia|].
  simpl u8_digits. rewrite Da, Db.
  repeat (rewrite u8_checked_ok by lia).
  split; reflexivity.
Qed.

(** X5: a chunk of two hex digits parses to the byte value whose high
    nibble is the first digit and whose low nibble is the second; a single
    hex digit parses to its own value. *)
Theorem hex_chunk_value (a b da db : char) :
  to_digit a 16 = Some da -> to_digit b 16 = Some db ->
  parse_chunk [a; b] = Some (da * 16 + db) /\ parse_chunk [a] = Some da.
Proof. apply parse_hex_pair. Qed.

Lemma ansi_single_chunk (ch : rstring) :
  chunks2 ch = [ch] ->
  ANSIColouredLine_format_hash ch =
  match parse_chunk ch with Some v => paint_fixed v ch | None => ch end.
Proof.
  intros Hc. unfold ANSIColouredLine_format_hash. cbv zeta. rewrite Hc. cbn [map].
  unfold parse_chunk. destruct (u8_from_str_radix (str_bytes ch) 16); simpl;
    [rewrite app_nil_r|]; reflexivity.
Qed.

(** X6: [u8::from_str_radix] skips a leading [+], so a chunk [+d] with [d]
    a hex digit parses to the value of [d] and the ANSI-colour formatter
    colours such a string; a chunk starting with [-] or a lone [+] does not
    parse, and the formatter then returns its input. *)
Theorem plus_sign_chunk (d dv : Z) :
  to_digit d 16 = Some dv ->
  parse_chunk [43; d] = Some dv /\
  ANSIColouredLine_format_hash [43; d] = paint_fixed dv [43; d] /\
  parse_chunk [45; d] = None /\ ANSIColouredLine_format_hash [45; d] = [45; d] /\
  parse_chunk [43] = None.
Proof.
  intros Dd. destruct (to_digit_hex_facts d dv Dd) as [Rd [_ [_ Rdv]]].
  assert (Hp : parse_chunk [43; d] = Some dv).
  { unfold parse_chunk, str_bytes. simpl flat_map.
    rewrite utf8_encode_ascii by lia. simpl app.
    unfold u8_from_str_radix. simpl Z.eqb. cbv iota.
    simpl u8_digits. rewrite Dd.
    repeat (rewrite u8_checked_ok by lia). reflexivity. }
  assert (Hm : parse_chunk [45; d] = None).
  { unfold parse_chunk, str_bytes. simpl flat_map.
    rewrite utf8_encode_ascii by lia. reflexivity. }
  split; [exact Hp|]. split.
  { rewrite ansi_single_chunk by reflexivity. rewrite Hp. reflexivity. }
  split; [exact Hm|]. split; [|reflexivity].
  rewrite ansi_single_chunk by reflexivity. rewrite Hm. reflexivity.
Qed.

(** ** Lower-case hexadecimal text of a byte sequence *)

Definition hex_digit_char (d : Z) : char := if d <? 10 then 48 + d else 87 + d.

Definition hex2 (b : byte) : rstring := [hex_digit_char (b / 16); hex_digit_char (b mod 16)].

Definition hex_lower (bs : list byte) : rstring := flat_map hex2 bs.

Lemma to_digit_hex_digit_char (d : Z) : 0 <= d < 16 -> to_digit (hex_digit_char d) 16 = Some d.
Proof.
  intros Hd.
  assert (E : d = 0 \/ d = 1 \/ d = 2 \/ d = 3 \/ d = 4 \/ d = 5 \/ d = 6 \/ d = 7 \/
              d = 8 \/ d = 9 \/ d = 10 \/ d = 11 \/ d = 12 \/ d = 13 \/ d = 14 \/ d = 15) by lia.
  repeat destruct E as [E|E]; subst d; reflexivity.
Qed.

Lemma parse_hex2 (b : byte) : 0 <= b <= 255 -> parse_chunk (hex2 b) = Some b.
Proof.
  intros Hb. unfold hex2.
  rewrite (proj1 (parse_hex_pair _ _ _ _
                    (to_digit_hex_digit_char (b / 16) ltac:(split; [apply Z.div_pos|apply Z.div_lt_upper_bound]; lia))
                    (to_digit_hex_digit_char (b mod 16) ltac:(apply Z.mod_pos_bound; lia)))).
  f_equal. pose proof (Z.div_mod b 16). lia.
Qed.

Lemma chunks2_hex_lower (bs : list byte) : chunks2 (hex_lower bs) = map hex2 bs.
Proof. induction bs as [|b bs IH]; [reflexivity|]. simpl. rewrite IH. reflexivity. Qed.

(** X7: hex-decoding round trip. For the lower-case hexadecimal text of any
    byte sequence, the ANSI-colour formatter paints each two-digit group with
    the colour of its own byte value, and the ecoji formatter hands exactly
    that byte sequence to the encoder. *)
Theorem hex_lower_round_trip (bs : list byte) :
  Forall (fun b => 0 <= b <= 255) bs ->
  ANSIColouredLine_format_hash (hex_lower bs) = flat_map (fun b => paint_fixed b (hex2 b)) bs /\
  forall enc, EcojiLine_format_hash enc (hex_lower bs) = unwrap_or (enc bs) (hex_lower bs).
Proof.
  intros Hbs. split.
  - unfold ANSIColouredLine_format_hash. cbv zeta. rewrite chunks2_hex_lower, map_map.
    rewrite flat_map_concat_map.
    rewrite (collect_string_ok _ (fun b => paint_fixed b (hex2 b))); [reflexivity|].
    eapply Forall_impl; [|exact Hbs]. intros b Hb. cbv beta.
    pose proof (parse_hex2 b Hb) as E. unfold parse_chunk in E. rewrite E. reflexivity.
  - intros enc. unfold EcojiLine_format_hash. cbv zeta. rewrite chunks2_hex_lower, map_map.
    replace (collect_vec _) with (Some bs); [reflexivity|].
    induction Hbs as [|b bs Hb _ IH]; [reflexivity|].
    cbn [map collect_vec]. pose proof (parse_hex2 b Hb) as E. unfold parse_chunk in E.
    rewrite E, <- IH.
    reflexivity.
Qed.

(** ** Composition of the ANSI-colour formatter *)

Lemma chunks2_app_even {A} (x y : list A) :
  Nat.even (length x) = true -> chunks2 (x ++ y) = chunks2 x ++ chunks2 y.
Proof.
  assert (H : forall n (x : list A), (length x <= n)%nat ->
            Nat.even (length x) = true -> chunks2 (x ++ y) = chunks2 x ++ chunks2 y).
  { induction n as [|n IH]; intros [|a [|b t]] Hl He; try reflexivity; simpl in *;
      try lia; try discriminate.
    rewrite IH; [reflexivity|lia|exact He]. }
  intros He. apply (H (length x)); [lia|exact He].
Qed.

Lemma collect_string_app (xs ys : list (option rstring)) :
  collect_string (xs ++ ys) =
  match collect_string xs with
  | Some a => option_map (fun b => a ++ b) (collect_string ys)
  | None => None
  end.
Proof.
  induction xs as [|[s|] xs IH]; simpl.
  - destruct (collect_string ys); reflexivity.
  - rewrite IH. destruct (collect_string xs); [|reflexivity].
    destruct (collect_string ys); simpl; [rewrite app_assoc|]; reflexivity.
  - reflexivity.
Qed.

Lemma collect_string_some (f : rstring -> option rstring) (l : list rstring) :
  (forall ch, In ch l -> f ch <> None) -> exists r, collect_string (map f l) = Some r.
Proof.
  induction l as [|ch l IH]; intros H; [exists []; reflexivity|].
  simpl. destruct (f ch) as [s|] eqn:E; [|exfalso; apply (H ch); [left; reflexivity|exact E]].
  destruct IH as [r Hr]; [intros c Hc; apply H; right; exact Hc|].
  rewrite Hr. eexists. reflexivity.
Qed.

Lemma unwrap_collect_app (f : rstring -> option rstring) (cx cy : list rstring) (x y : rstring) :
  unwrap_or (collect_string (map f (cx ++ cy))) (x ++ y) =
  match collect_string (map f cx), collect_string (map f cy) with
  | Some a, Some b => a ++ b
  | _, _ => x ++ y
  end.
Proof.
  rewrite map_app, collect_string_app.
  destruct (collect_string (map f cx)); [|reflexivity].
  destruct (collect_string (map f cy)); reflexivity.
Qed.

(** X8: the ANSI-colour formatter composes over an even-length prefix: when
    every chunk of both parts parses, formatting their concatenation is the
    concatenation of the formatted parts; when a chunk of the prefix does not
    parse, the concatenation is returned unchanged, whatever follows. *)
Theorem ansi_format_hash_concat (x y : rstring) :
  Nat.even (length x) = true ->
  ((forall ch, In ch (chunks2 x ++ chunks2 y) -> parse_chunk ch <> None) ->
   ANSIColouredLine_format_hash (x ++ y) =
   ANSIColouredLine_format_hash x ++ ANSIColouredLine_format_hash y) /\
  ((exists ch, In ch (chunks2 x) /\ parse_chunk ch = None) ->
   ANSIColouredLine_format_hash (x ++ y) = x ++ y).
Proof.
  intros He. unfold ANSIColouredLine_format_hash. cbv zeta.
  rewrite (chunks2_app_even x y He), unwrap_collect_app.
  split.
  - intros Hall.
    destruct (collect_string_some (fun byte : rstring =>
                option_map (fun ordinal => paint_fixed ordinal byte)
                  (u8_from_str_radix (str_bytes byte) 16)) (chunks2 x)) as [a Ha].
    { intros ch Hc. specialize (Hall ch ltac:(apply in_or_app; left; exact Hc)).
      unfold parse_chunk in *. destruct (u8_from_str_radix _ _); [discriminate|contradiction]. }
    destruct (collect_string_some (fun byte : rstring =>
                option_map (fun ordinal => paint_fixed ordinal byte)
                  (u8_from_str_radix (str_bytes byte) 16)) (chunks2 y)) as [b Hb].
    { intros ch Hc. specialize (Hall ch ltac:(apply in_or_app; right; exact Hc)).
      unfold parse_chunk in *. destruct (u8_from_str_radix _ _); [discriminate|contradiction]. }
    rewrite Ha, Hb. reflexivity.
  - intros [ch [Hin Hp]].
    rewrite (collect_string_none _ (chunks2 x) ch Hin)
      by (unfold parse_chunk in Hp; cbv beta; rewrite Hp; reflexivity).
    reflexivity.
Qed.

(** ** The digit-highlight formatter *)

(** X9: the digit-highlight formatter adds exactly 13 characters per ASCII
    digit (the 9-character colour prefix [ESC [38;5;4m] and the 4-character
    reset [ESC [0m]) and copies every other character, so it returns its
    input exactly when the input has no ASCII digit. *)
Theorem onepassword_length_and_fixpoint (x : rstring) :
  length (OnePasswordLine_format_hash x) = (length x + 13 * length (filter is_ascii_digit x))%nat /\
  (OnePasswordLine_format_hash x = x <-> filter is_ascii_digit x = []).
Proof.
  assert (Hlen : forall x, length (OnePasswordLine_format_hash x) =
                   (length x + 13 * length (filter is_ascii_digit x))%nat).
  { induction x0 as [|c x0 IH]; [reflexivity|].
    unfold OnePasswordLine_format_hash in *. simpl flat_map. rewrite length_app, IH.
    simpl filter. destruct (is_ascii_digit c); simpl length; lia. }
  split; [apply Hlen|]. split.
  - intros E. pose proof (Hlen x) as L. rewrite E in L.
    apply length_zero_iff_nil. lia.
  - induction x as [|c x IH]; intros Hf; [reflexivity|].
    simpl in Hf. destruct (is_ascii_digit c) eqn:Hd; [discriminate|].
    unfold OnePasswordLine_format_hash in *. simpl flat_map. rewrite Hd, IH by exact Hf.
    reflexivity.
Qed.

(** ** [BufRead::lines] and [Line::coloursum] *)

(** [BufRead::lines] on a text stream: [read_line] reads up to and including
    a newline; a line that ends with ["\n"] loses it, and then a trailing
    ["\r"] as well; a final line without newline is yielded as it is; an
    empty read ends the iteration. *)
Definition pop_cr (buf : rstring) : rstring :=
  match rev buf with
  | last :: r => if last =? 13 then rev r else buf
  | [] => buf
  end.

Fixpoint lines_go (s buf : rstring) : list rstring :=
  match s with
  | [] => match buf with [] => [] | _ => [buf] end
  | c :: t => if c =? 10 then pop_cr buf :: lines_go t [] else lines_go t (buf ++ [c])
  end.

Definition lines (s : rstring) : list rstring := lines_go s [].

(** The pieces [to_formatted] hands to the formatter, in order: the
    contents alone for a line with no span, otherwise the [write!] arguments
    [contents[..slice_start]], the formatted span and [contents[slice_end..]],
    all evaluated before the first is written. *)
Definition to_formatted_pieces {L} `{Line L} (self : L) : option (list rstring) :=
  let line := get_line self in
  if is_none (formattable_start line) && is_none (formattable_end line) then
    Some [contents line]
  else
    let slice_start := unwrap_or (formattable_start line) 0%nat in
    let slice_end := unwrap_or (formattable_end line) (str_len (contents line)) in
    match slice_to (contents line) slice_start,
          slice (contents line) slice_start slice_end,
          slice_from (contents line) slice_end with
    | Some a, Some m, Some b => Some [a; format_hash m; b]
    | _, _, _ => None
    end.

Section Writer.

(** The sink [to : O] with [O: Write]. Through [writeln!] every piece of
    text is passed to [Write::write_all] on its bytes, which either succeeds
    ([inl], the sink afterwards) or fails ([inr], the sink as the error left
    it); the first failure ends the [writeln!] with that error. *)
Variable W : Type.
Variable write_all : W -> list byte -> W + W.

Fixpoint write_seq (to : W) (pieces : list rstring) : W + W :=
  match pieces with
  | [] => inl to
  | p :: ps =>
      match write_all to (str_bytes p) with
      | inl to' => write_seq to' ps
      | inr to' => inr to'
      end
  end.

(** How [coloursum] returns: [Ok] at the end of the input, [Err] from a
    read error ([wrapped_line?]) or from a write error ([writeln!(..)?]),
    or a panic of a failed slice in [to_formatted]; each with the sink as it
    is left. *)
Inductive outcome :=
| Done (to : W)
| ReadFailed (to : W)
| WriteFailed (to : W)
| Panicked (to : W).

(** [for wrapped_line in from.lines() { writeln!(to, "{}", Self::from(wrapped_line?))? }];
    the lines of [from] are given as read results, [None] a read error;
    [writeln!] writes the pieces of the line and then ["\n"]. *)
Fixpoint coloursum_go {L} `{Line L} (from : rstring -> L) (ls : list (option rstring))
    (to : W) : outcome :=
  match ls with
  | [] => Done to
  | None :: _ => ReadFailed to
  | Some line :: t =>
      match to_formatted_pieces (from line) with
      | None => Panicked to
      | Some pieces =>
          match write_seq to (pieces ++ [[10]]) with
          | inl to' => coloursum_go from t to'
          | inr to' => WriteFailed to'
          end
      end
  end.

Definition coloursum {L} `{Line L} (from : rstring -> L) (ls : list (option rstring))
    (to : W) : outcome :=
  coloursum_go from ls to.

End Writer.

Arguments write_seq {W} write_all to pieces.
Arguments Done {W} to.
Arguments ReadFailed {W} to.
Arguments WriteFailed {W} to.
Arguments Panicked {W} to.
Arguments coloursum_go {W} write_all {L _} from ls to.
Arguments coloursum {W} write_all {L _} from ls to.

(** [impl Write for Vec<u8>]: [write] appends the whole buffer and never
    fails, so [write_all] appends. *)
Definition vec_write_all (v bs : list byte) : list byte + list byte := inl (v ++ bs).

Lemma pop_cr_no_cr (buf : rstring) : ~ In 13 buf -> pop_cr buf = buf.
Proof.
  intros Hn. unfold pop_cr. destruct (rev buf) as [|c r] eqn:E; [reflexivity|].
  destruct (Z.eqb_spec c 13) as [->|Hc].
  - exfalso. apply Hn. apply (proj2 (in_rev buf 13)). rewrite E. left. reflexivity.
  - reflexivity.
Qed.

Lemma pop_cr_incl (buf : rstring) (x : char) : In x (pop_cr buf) -> In x buf.
Proof.
  unfold pop_cr. destruct (rev buf) as [|c r] eqn:E; [tauto|].
  destruct (Z.eqb_spec c 13) as [->|Hc].
  - intros Hx. apply (proj2 (in_rev buf x)). rewrite E. right.
    apply (proj2 (in_rev r x)). exact Hx.
  - tauto.
Qed.

Lemma lines_go_chars (s buf l : rstring) (x : char) :
  In l (lines_go s buf) -> In x l -> In x s \/ In x buf.
Proof.
  revert buf. induction s as [|c t IH]; intros buf Hl Hx; simpl in Hl.
  - destruct buf as [|b bs]; [destruct Hl|]. destruct Hl as [<-|[]]. right. exact Hx.
  - destruct (Z.eqb_spec c 10).
    + destruct Hl as [<-|Hl].
      * right. apply pop_cr_incl. exact Hx.
      * destruct (IH [] Hl Hx) as [H|[]]. left. right. exact H.
    + destruct (IH _ Hl Hx) as [H|H]; [left; right; exact H|].
      apply in_app_or in H as [H|[<-|[]]]; [right; exact H|left; left; reflexivity].
Qed.

Lemma lines_go_round_trip (s buf : rstring) :
  ~ In 13 s -> ~ In 13 buf -> (s = [] /\ buf = []) \/ (s <> [] /\ last s 0 = 10) ->
  concat (map (fun l => l ++ [10]) (lines_go s buf)) = buf ++ s.
Proof.
  revert buf. induction s as [|c t IH]; intros buf Hs Hb Hp.
  - destruct Hp as [[_ ->]|[[] _]]; reflexivity.
  - assert (Ht : ~ In 13 t) by (intros H; apply Hs; right; exact H).
    assert (Hc : c <> 13) by (intros E; apply Hs; left; exact E).
    destruct Hp as [[[=] _]|[_ Hl]].
    simpl. destruct (Z.eqb_spec c 10) as [->|Hc10].
    + cbn [map concat]. rewrite pop_cr_no_cr by exact Hb. rewrite <- app_assoc. f_equal.
      destruct t as [|d t']; [reflexivity|].
      rewrite IH; [reflexivity|exact Ht|intros []|].
      right. split; [discriminate|]. exact Hl.
    + destruct t as [|d t']; [simpl in Hl; congruence|].
      rewrite IH; [rewrite <- app_assoc; reflexivity|exact Ht| |].
      * intros H. apply in_app_or in H as [H|[E|[]]]; [exact (Hb H)|exact (Hc E)].
      * right. split; [discriminate|]. exact Hl.
Qed.

Lemma lines_concat (s : rstring) :
  ~ In 13 s -> (s = [] \/ last s 0 = 10) ->
  concat (map (fun l => l ++ [10]) (lines s)) = s.
Proof.
  intros Hs Hp. unfold lines. rewrite lines_go_round_trip; [reflexivity|exact Hs|intros []|].
  destruct Hp as [->|Hl]; [left; split; reflexivity|].
  destruct s as [|c t]; [left; split; reflexivity|]. right. split; [discriminate|exact Hl].
Qed.

(** X10: [BufRead::lines] yields lines without newline characters, and on a
    text with no carriage return that is empty or ends with a newline,
    writing each line followed by a newline gives the text back. *)
Theorem lines_round_trip (s : rstring) :
  (forall l, In l (lines s) -> ~ In 10 l) /\
  (~ In 13 s -> (s = [] \/ last s 0 = 10) ->
   concat (map (fun l => l ++ [10]) (lines s)) = s).
Proof.
  split.
  - intros l Hl Hx.
    assert (Hgen : forall s buf l, ~ In 10 buf -> In l (lines_go s buf) -> ~ In 10 l).
    { clear. induction s as [|c t IH]; intros buf l Hb Hl Hx; simpl in Hl.
      - destruct buf as [|b bs]; [destruct Hl|]. destruct Hl as [<-|[]]. exact (Hb Hx).
      - destruct (Z.eqb_spec c 10).
        + destruct Hl as [<-|Hl]; [exact (Hb (pop_cr_incl _ _ Hx))|].
          exact (IH [] l ltac:(intros []) Hl Hx).
        + apply (IH (buf ++ [c]) l); [|exact Hl|exact Hx].
          intros H. apply in_app_or in H as [H|[E|[]]]; [exact (Hb H)|congruence]. }
    exact (Hgen s [] l ltac:(intros []) Hl Hx).
  - apply lines_concat.
Qed.

Lemma to_formatted_pieces_concat {L} `{Line L} (self : L) :
  to_formatted self = option_map (@concat char) (to_formatted_pieces self).
Proof.
  unfold to_formatted, to_formatted_pieces. cbv zeta.
  destruct (is_none _ && is_none _); [simpl; rewrite app_nil_r; reflexivity|].
  destruct (slice_to _ _); [|reflexivity].
  destruct (slice _ _ _); [|reflexivity].
  destruct (slice_from _ _); [|reflexivity].
  simpl. rewrite app_nil_r. reflexivity.
Qed.

Lemma write_seq_app {W} (write_all : W -> list byte -> W + W) (to : W) (a b : list rstring) :
  write_seq write_all to (a ++ b) =
  match write_seq write_all to a with inl t => write_seq write_all t b | inr t => inr t end.
Proof.
  revert to. induction a as [|p a IH]; intros to; [reflexivity|].
  simpl. destruct (write_all to (str_bytes p)); [apply IH|reflexivity].
Qed.

Lemma write_seq_vec (v : list byte) (ps : list rstring) :
  write_seq vec_write_all v ps = inl (v ++ str_bytes (concat ps)).
Proof.
  revert v. induction ps as [|p ps IH]; intros v.
  - simpl. rewrite app_nil_r. reflexivity.
  - simpl. rewrite IH. cbn [concat]. rewrite str_bytes_app, app_assoc. reflexivity.
Qed.

Lemma coloursum_go_lines {W} (write_all : W -> list byte -> W + W) {L} `{Line L}
    (from : rstring -> L) :
  (forall l, get_line (from l) = FormattableLine_from l) ->
  forall ls rest to, (rest = [] \/ exists r, rest = None :: r) ->
  exists pss,
    Forall2 (fun l ps => exists f, to_formatted (from l) = Some f /\ concat ps = f ++ [10]) ls pss /\
    coloursum_go write_all from (map Some ls ++ rest) to =
    match write_seq write_all to (concat pss) with
    | inl t => match rest with [] => Done t | _ => ReadFailed t end
    | inr t => WriteFailed t
    end.
Proof.
  intros Hf ls rest. induction ls as [|l ls IH]; intros to Hr.
  - exists []. split; [constructor|]. destruct Hr as [->|[r ->]]; reflexivity.
  - destruct (to_formatted_from_total (from l) l (Hf l)) as [f Ef].
    rewrite to_formatted_pieces_concat in Ef.
    destruct (to_formatted_pieces (from l)) as [ps0|] eqn:Ep; [|discriminate].
    injection Ef as Ef.
    assert (Hl : exists f, to_formatted (from l) = Some f /\ concat (ps0 ++ [[10]]) = f ++ [10]).
    { exists f. split.
      - rewrite to_formatted_pieces_concat, Ep. simpl. f_equal. exact Ef.
      - rewrite concat_app. simpl. rewrite Ef. reflexivity. }
    cbn [map app coloursum_go]. rewrite Ep.
    destruct (write_seq write_all to (ps0 ++ [[10]])) as [t|t] eqn:Ew.
    + destruct (IH t Hr) as [pss [Hall Ho]].
      exists ((ps0 ++ [[10]]) :: pss). split; [constructor; assumption|].
      rewrite Ho. cbn [concat]. rewrite write_seq_app, Ew. reflexivity.
    + destruct (IH to Hr) as [pss [Hall _]].
      exists ((ps0 ++ [[10]]) :: pss). split; [constructor; assumption|].
      cbn [concat]. rewrite write_seq_app, Ew. reflexivity.
Qed.

(** X11: [coloursum] never panics, and over any sink [O: Write] it writes,
    in order, the text of every line read, formatted by [to_formatted] and
    followed by a newline. It returns [Err] at the first failing write, with
    nothing after it written; else [Err] at the first read error, after the
    lines before it; else [Ok]. *)
Theorem coloursum_writes_lines_until_error {W} (write_all : W -> list byte -> W + W)
    (ls : list rstring) (rest : list (option rstring)) (to : W) :
  (rest = [] \/ exists r, rest = None :: r) ->
  (exists pss,
     Forall2 (fun l ps => exists f, to_formatted (ANSIColouredLine_from l) = Some f /\
                                   concat ps = f ++ [10]) ls pss /\
     coloursum write_all ANSIColouredLine_from (map Some ls ++ rest) to =
     match write_seq write_all to (concat pss) with
     | inl t => match rest with [] => Done t | _ => ReadFailed t end
     | inr t => WriteFailed t
     end) /\
  (exists pss,
     Forall2 (fun l ps => exists f, to_formatted (OnePasswordLine_from l) = Some f /\
                                   concat ps = f ++ [10]) ls pss /\
     coloursum write_all OnePasswordLine_from (map Some ls ++ rest) to =
     match write_seq write_all to (concat pss) with
     | inl t => match rest with [] => Done t | _ => ReadFailed t end
     | inr t => WriteFailed t
     end) /\
  (forall enc, exists pss,
     Forall2 (fun l ps => exists f, @to_formatted _ (EcojiLine_Line enc) (EcojiLine_from l) = Some f /\
                                   concat ps = f ++ [10]) ls pss /\
     @coloursum _ write_all _ (EcojiLine_Line enc) EcojiLine_from (map Some ls ++ rest) to =
     match write_seq write_all to (concat pss) with
     | inl t => match rest with [] => Done t | _ => ReadFailed t end
     | inr t => WriteFailed t
     end).
Proof.
  intros Hr. split; [|split; [|intros enc]]; unfold coloursum;
    eapply coloursum_go_lines; [reflexivity|exact Hr| reflexivity|exact Hr|reflexivity|exact Hr].
Qed.

Lemma strip_written_lines {L} `{Line L} (from : rstring -> L) :
  (forall x r, ~ In ESC x -> strip_go Text (format_hash x ++ r) = x ++ strip_go Text r) ->
  (forall l, get_line (from l) = FormattableLine_from l) ->
  forall ls pss, (forall l, In l ls -> ~ In ESC l) ->
  Forall2 (fun l ps => exists f, to_formatted (from l) = Some f /\ concat ps = f ++ [10]) ls pss ->
  forall rest, strip_go Text (concat (concat pss) ++ rest) =
               concat (map (fun l => l ++ [10]) ls) ++ strip_go Text rest.
Proof.
  intros Hfh Hf ls pss Hn Hall. induction Hall as [|l ps ls pss [f [Ef Ec]] _ IH]; intros rest.
  - reflexivity.
  - assert (Hl : ~ In ESC l) by (apply Hn; left; reflexivity).
    destruct (strip_to_formatted_app (from l) l ([10] ++ concat (concat pss) ++ rest) Hfh (Hf l) Hl)
      as [f' [Ef' Hs']].
    rewrite Ef in Ef'. injection Ef' as <-.
    cbn [concat map]. rewrite concat_app, Ec.
    refine (eq_trans _ (eq_trans Hs' _)).
    + f_equal. rewrite <- !app_assoc. reflexivity.
    + cbn [app strip_go Z.eqb Pos.eqb].
      rewrite IH by (intros l' Hl'; apply Hn; right; exact Hl').
      rewrite <- !app_assoc. reflexivity.
Qed.

(** X12: end to end, on a text with no ESC and no carriage return that is
    empty or ends with a newline, [coloursum] in the ANSI-colour and in the
    digit-highlight mode, reading the text through [BufRead::lines] and
    writing into a [Vec<u8>], returns [Ok] with the bytes of a string from
    which removing the escape sequences gives the text back. *)
Theorem coloursum_strips_to_input (s : rstring) :
  ~ In ESC s -> ~ In 13 s -> (s = [] \/ last s 0 = 10) ->
  (exists out, coloursum vec_write_all ANSIColouredLine_from (map Some (lines s)) [] =
                 Done (str_bytes out) /\ strip_escapes out = s) /\
  (exists out, coloursum vec_write_all OnePasswordLine_from (map Some (lines s)) [] =
                 Done (str_bytes out) /\ strip_escapes out = s).
Proof.
  intros He Hcr Hl.
  assert (Hn : forall l, In l (lines s) -> ~ In ESC l).
  { intros l Hin Hx. destruct (lines_go_chars s [] l ESC Hin Hx) as [H|[]]. exact (He H). }
  pose proof (lines_concat s Hcr Hl) as Hrt.
  unfold coloursum, strip_escapes. split.
  - destruct (@coloursum_go_lines _ vec_write_all _ ANSIColouredLine_Line ANSIColouredLine_from
                (fun _ => eq_refl) (lines s) [] [] (or_introl eq_refl)) as [pss [Hall Ho]].
    exists (concat (concat pss)). rewrite app_nil_r in Ho. rewrite Ho, write_seq_vec.
    split; [reflexivity|].
    rewrite <- (app_nil_r (concat (concat pss))).
    rewrite (@strip_written_lines _ ANSIColouredLine_Line ANSIColouredLine_from
               strip_ansi_app (fun _ => eq_refl) (lines s) pss Hn Hall []), Hrt.
    apply app_nil_r.
  - destruct (@coloursum_go_lines _ vec_write_all _ OnePasswordLine_Line OnePasswordLine_from
                (fun _ => eq_refl) (lines s) [] [] (or_introl eq_refl)) as [pss [Hall Ho]].
    exists (concat (concat pss)). rewrite app_nil_r in Ho. rewrite Ho, write_seq_vec.
    split; [reflexivity|].
    rewrite <- (app_nil_r (concat (concat pss))).
    rewrite (@strip_written_lines _ OnePasswordLine_Line OnePasswordLine_from
               strip_onepassword_app (fun _ => eq_refl) (lines s) pss Hn Hall []), Hrt.
    apply app_nil_r.
Qed.

(** ** Witnesses of the further properties *)

Lemma bsd_span_after_last_separator_witness :
  formattable_start (FormattableLine_from (lit "MD5 (a) = de"%string)) = Some 10%nat /\
  exists pre suf, lit "MD5 (a) = de"%string = pre ++ suf /\ str_len pre = 10%nat /\
    (exists p, pre = p ++ lit " = "%string) /\
    forall o, ~ occurs_at (str_bytes suf) [32; 61; 32] o.
Proof.
  split; [reflexivity|].
  apply (bsd_span_after_last_separator (lit "MD5 (a) = de"%string) 10%nat). reflexivity.
Defined.

Lemma sum_span_before_first_double_space_witness :
  formattable_end (FormattableLine_from (lit "de  a"%string)) = Some 2%nat /\
  (forall o, ~ occurs_at (str_bytes (lit "de  a"%string)) [32; 61; 32] o) /\
  exists pre post, lit "de  a"%string = pre ++ lit "  "%string ++ post /\ str_len pre = 2%nat /\
    forall o, ~ occurs_at (str_bytes pre) [32; 32] o.
Proof.
  split; [reflexivity|].
  apply (sum_span_before_first_double_space (lit "de  a"%string) 2%nat). reflexivity.
Defined.

Lemma to_formatted_replaces_span_witness :
  get_line (ANSIColouredLine_from (lit "de  a"%string)) = FormattableLine_from (lit "de  a"%string) /\
  (to_formatted (ANSIColouredLine_from (lit "de  a"%string)) = Some (lit "de  a"%string) \/
   exists pre span post, lit "de  a"%string = pre ++ span ++ post /\ (pre = [] \/ post = []) /\
     to_formatted (ANSIColouredLine_from (lit "de  a"%string)) =
     Some (pre ++ ANSIColouredLine_format_hash span ++ post)).
Proof.
  split; [reflexivity|].
  apply (@to_formatted_replaces_span _ ANSIColouredLine_Line
           (ANSIColouredLine_from (lit "de  a"%string)) (lit "de  a"%string)).
  reflexivity.
Defined.

Lemma formatted_line_strips_to_line_witness :
  ~ In ESC (lit "de  a"%string) /\
  (exists out, to_formatted (ANSIColouredLine_from (lit "de  a"%string)) = Some out /\
     strip_escapes out = lit "de  a"%string) /\
  (exists out, to_formatted (OnePasswordLine_from (lit "de  a"%string)) = Some out /\
     strip_escapes out = lit "de  a"%string).
Proof.
  assert (Hn : ~ In ESC (lit "de  a"%string)) by (simpl; unfold ESC; lia).
  split; [exact Hn|]. apply (formatted_line_strips_to_line (lit "de  a"%string) Hn).
Defined.

Lemma hex_chunk_value_witness :
  to_digit 98 16 = Some 11 /\ to_digit 55 16 = Some 7 /\
  parse_chunk [98; 55] = Some (11 * 16 + 7) /\ parse_chunk [98] = Some 11.
Proof.
  split; [reflexivity|]. split; [reflexivity|].
  apply (hex_chunk_value 98 55 11 7); reflexivity.
Defined.

Lemma plus_sign_chunk_witness :
  to_digit 102 16 = Some 15 /\
  parse_chunk [43; 102] = Some 15 /\
  ANSIColouredLine_format_hash [43; 102] = paint_fixed 15 [43; 102] /\
  parse_chunk [45; 102] = None /\ ANSIColouredLine_format_hash [45; 102] = [45; 102] /\
  parse_chunk [43] = None.
Proof.
  split; [reflexivity|]. apply (plus_sign_chunk 102 15). reflexivity.
Defined.

Lemma hex_lower_round_trip_witness :
  Forall (fun b => 0 <= b <= 255) [183; 0] /\
  ANSIColouredLine_format_hash (hex_lower [183; 0]) =
    flat_map (fun b => paint_fixed b (hex2 b)) [183; 0] /\
  forall enc, EcojiLine_format_hash enc (hex_lower [183; 0]) =
              unwrap_or (enc [183; 0]) (hex_lower [183; 0]).
Proof.
  assert (H : Forall (fun b => 0 <= b <= 255) [183; 0])
    by (repeat constructor; lia).
  split; [exact H|]. apply (hex_lower_round_trip [183; 0] H).
Defined.

Lemma ansi_format_hash_concat_witness :
  Nat.even (length (lit "b7"%string)) = true /\
  ((forall ch, In ch (chunks2 (lit "b7"%string) ++ chunks2 (lit "g0"%string)) ->
               parse_chunk ch <> None) ->
   ANSIColouredLine_format_hash (lit "b7"%string ++ lit "g0"%string) =
   ANSIColouredLine_format_hash (lit "b7"%string) ++ ANSIColouredLine_format_hash (lit "g0"%string)) /\
  ((exists ch, In ch (chunks2 (lit "b7"%string)) /\ parse_chunk ch = None) ->
   ANSIColouredLine_format_hash (lit "b7"%string ++ lit "g0"%string) =
   lit "b7"%string ++ lit "g0"%string).
Proof.
  split; [reflexivity|].
  apply (ansi_format_hash_concat (lit "b7"%string) (lit "g0"%string)). reflexivity.
Defined.


(** A sink that takes at most 8 bytes: a [write_all] that would go past
    them fails. *)
Definition bounded_write_all (n : nat) (bs : list byte) : nat + nat :=
  if (n + length bs <=? 8)%nat then inl (n + length bs)%nat else inr n.

Lemma coloursum_writes_lines_until_error_witness :
  ([@None rstring] = [] \/ exists r, [@None rstring] = @None rstring :: r) /\
  (exists pss,
     Forall2 (fun l ps => exists f, to_formatted (ANSIColouredLine_from l) = Some f /\
                                   concat ps = f ++ [10]) [lit "de  a"%string] pss /\
     coloursum bounded_write_all ANSIColouredLine_from (map Some [lit "de  a"%string] ++ [None]) 0%nat =
     match write_seq bounded_write_all 0%nat (concat pss) with
     | inl t => ReadFailed t
     | inr t => WriteFailed t
     end) /\
  (exists pss,
     Forall2 (fun l ps => exists f, to_formatted (OnePasswordLine_from l) = Some f /\
                                   concat ps = f ++ [10]) [lit "de  a"%string] pss /\
     coloursum bounded_write_all OnePasswordLine_from (map Some [lit "de  a"%string] ++ [None]) 0%nat =
     match write_seq bounded_write_all 0%nat (concat pss) with
     | inl t => ReadFailed t
     | inr t => WriteFailed t
     end) /\
  (forall enc, exists pss,
     Forall2 (fun l ps => exists f, @to_formatted _ (EcojiLine_Line enc) (EcojiLine_from l) = Some f /\
                                   concat ps = f ++ [10]) [lit "de  a"%string] pss /\
     @coloursum _ bounded_write_all _ (EcojiLine_Line enc) EcojiLine_from
       (map Some [lit "de  a"%string] ++ [None]) 0%nat =
     match write_seq bounded_write_all 0%nat (concat pss) with
     | inl t => ReadFailed t
     | inr t => WriteFailed t
     end).
Proof.
  assert (H : [@None rstring] = [] \/ exists r, [@None rstring] = @None rstring :: r)
    by (right; exists []; reflexivity).
  split; [exact H|].
  exact (coloursum_writes_lines_until_error bounded_write_all [lit "de  a"%string] [None] 0%nat H).
Defined.

Lemma coloursum_strips_to_input_witness :
  ~ In ESC (lit "de  a"%string ++ [10]) /\ ~ In 13 (lit "de  a"%string ++ [10]) /\
  (lit "de  a"%string ++ [10] = [] \/ last (lit "de  a"%string ++ [10]) 0 = 10) /\
  (exists out, coloursum vec_write_all ANSIColouredLine_from
                 (map Some (lines (lit "de  a"%string ++ [10]))) [] = Done (str_bytes out) /\
     strip_escapes out = lit "de  a"%string ++ [10]) /\
  (exists out, coloursum vec_write_all OnePasswordLine_from
                 (map Some (lines (lit "de  a"%string ++ [10]))) [] = Done (str_bytes out) /\
     strip_escapes out = lit "de  a"%string ++ [10]).
Proof.
  assert (H1 : ~ In ESC (lit "de  a"%string ++ [10])) by (simpl; unfold ESC; lia).
  assert (H2 : ~ In 13 (lit "de  a"%string ++ [10])) by (simpl; lia).
  assert (H3 : lit "de  a"%string ++ [10] = [] \/ last (lit "de  a"%string ++ [10]) 0 = 10)
    by (right; reflexivity).
  split; [exact H1|]. split; [exact H2|]. split; [exact H3|].
  exact (coloursum_strips_to_input _ H1 H2 H3).
Defined.
